(** * Library-management REST API: validation rules, book routes, schema

    A shallow embedding of the three source artefacts of the repository:

    - [src/validations/authValidations.ts]: the registration validation
      chains, written with express-validator;
    - the book router (Express): seven routes and their handler chains;
    - the Prisma schema: the models [Book], [User] and [Transactions].

    The strings the validators work on are JavaScript strings, sequences
    of UTF-16 code units; field names and messages are [String.string].
    A request body is a finite map from the names of the fields it has to
    their values. *)

From Stdlib Require Import ZArith NArith Ascii String Bool Lia.
From stdpp Require Import base strings list gmap.

(** Method chaining, [x.f(a).g(b)] in the source, reads [x |> f a |> g b]. *)
Notation "x |> f" := (f x) (at level 45, left associativity, only parsing).

(* ===================================================================== *)
(** * Part I: express-validator chains                                    *)
(* ===================================================================== *)

Module ExpressValidator.

(** ** JavaScript values

    A JavaScript string is a sequence of UTF-16 code units.  [js] gives the
    string of a text written in the Basic Latin range. *)
Definition jsstring : Type := list N.

Definition js (s : string) : jsstring := map N_of_ascii (list_ascii_of_string s).

(** What a field of a JSON body can hold, objects left out: null, a
    boolean, a number, a string, or an array of such values.  A number is
    given by the text [String()] renders it as, which is all the
    validators use of it.  A field the body does not have is [undefined],
    here [None] in an [option jsvalue]. *)
#[warnings="-register-all"]
Inductive jsvalue : Type :=
| JNull
| JBool (b : bool)
| JNumber (shown : jsstring)
| JString (s : jsstring)
| JArray (elems : list jsvalue).

(** [parts.join(sep)] on strings. *)
Fixpoint join_with (sep : jsstring) (parts : list jsstring) : jsstring :=
  match parts with
  | [] => []
  | [p] => p
  | p :: rest => p ++ sep ++ join_with sep rest
  end.

(** The text of a value: what [String()] gives for a boolean, a number
    and a string, the empty string for null, and for an array its
    elements' texts joined by commas ([Array.prototype.toString]). *)
Fixpoint text_of (v : jsvalue) : jsstring :=
  match v with
  | JNull => []
  | JBool true => js "true"
  | JBool false => js "false"
  | JNumber shown => shown
  | JString s => s
  | JArray elems => join_with (js ",") (map text_of elems)
  end.

(** express-validator's [toString(value, deep)], with [deep = false]
    and with the default [deep = true]: an array that is not empty is
    represented by its first element, taken without going deeper;
    [undefined] and null give the empty string. *)
Definition toString_shallow (v : option jsvalue) : jsstring :=
  match v with
  | None => []
  | Some x => text_of x
  end.

Definition toString (v : option jsvalue) : jsstring :=
  match v with
  | Some (JArray (x :: _)) => toString_shallow (Some x)
  | _ => toString_shallow v
  end.

(** ** Regular expressions

    The regular expressions of the source are all one character class,
    [/[...]/]: a list of ranges and single characters, matched against the
    code units of the string. *)
Inductive class_item : Type :=
| Range (lo hi : ascii)
| Lit (c : ascii).

Record regex : Type := CharClass { items : list class_item }.

Definition item_matches (c : N) (i : class_item) : bool :=
  match i with
  | Range lo hi => (N_of_ascii lo <=? c)%N && (c <=? N_of_ascii hi)%N
  | Lit a => (N_of_ascii a =? c)%N
  end.

Definition class_matches (r : regex) (c : N) : bool :=
  existsb (item_matches c) (items r).

(** Matching a string against such a pattern: the pattern is not
    anchored, so it matches as soon as one code unit of the string is in
    the class. *)
Definition test (r : regex) (s : jsstring) : bool :=
  existsb (class_matches r) s.

(** ** validator.js: the length of a string

    [isLength] counts [str.length] less the matches of
    [/(\uFE0F|\uFE0E)/g] (variation selectors) and less the matches of
    [/[\uD800-\uDBFF][\uDC00-\uDFFF]/g] (surrogate pairs, so that a
    character outside the basic plane counts once). *)
Definition is_presentation_selector (c : N) : bool :=
  (c =? 0xFE0F)%N || (c =? 0xFE0E)%N.

Definition is_high_surrogate (c : N) : bool := (0xD800 <=? c)%N && (c <=? 0xDBFF)%N.
Definition is_low_surrogate (c : N) : bool := (0xDC00 <=? c)%N && (c <=? 0xDFFF)%N.

Definition presentation_sequences (s : jsstring) : nat :=
  length (List.filter is_presentation_selector s).

Fixpoint surrogate_pairs (s : jsstring) : nat :=
  match s with
  | h :: rest =>
      match rest with
      | l :: rest' =>
          if is_high_surrogate h && is_low_surrogate l
          then S (surrogate_pairs rest')
          else surrogate_pairs rest
      | [] => 0
      end
  | [] => 0
  end.

Definition validator_length (s : jsstring) : nat :=
  length s - presentation_sequences s - surrogate_pairs s.

(** ** Validation chains

    One entry of a chain's stack: a standard validator, whether [.not()]
    negated it, and the message [.withMessage] attached to it. *)
Record validation : Type := {
  validator : jsstring -> bool;
  negated : bool;
  message : option string
}.

Record ValidationChain : Type := {
  field : string;
  stack : list validation;
  negateNext : bool
}.

(** [body(field)] *)
Definition body (f : string) : ValidationChain :=
  {| field := f; stack := []; negateNext := false |}.

Definition addValidator (p : jsstring -> bool) (c : ValidationChain) : ValidationChain :=
  {| field := field c;
     stack := stack c ++ [ {| validator := p; negated := negateNext c; message := None |} ];
     negateNext := false |}.

Fixpoint set_last_message (m : string) (st : list validation) : list validation :=
  match st with
  | [] => []
  | [v] => [ {| validator := validator v; negated := negated v; message := Some m |} ]
  | v :: rest => v :: set_last_message m rest
  end.

(** [.withMessage(m)]: sets the message of the validator added last. *)
Definition withMessage (m : string) (c : ValidationChain) : ValidationChain :=
  {| field := field c; stack := set_last_message m (stack c); negateNext := negateNext c |}.

(** [.not()] *)
Definition not_ (c : ValidationChain) : ValidationChain :=
  {| field := field c; stack := stack c; negateNext := true |}.

Record LengthOptions : Type := { min : nat; max : option nat }.

(** [.isLength({ min, max })] *)
Definition isLength (o : LengthOptions) : ValidationChain -> ValidationChain :=
  addValidator (fun s =>
    (min o <=? validator_length s)%nat &&
    match max o with
    | None => true
    | Some mx => (validator_length s <=? mx)%nat
    end).

(** [.matches(pattern)] *)
Definition matches (r : regex) : ValidationChain -> ValidationChain :=
  addValidator (test r).

(** [.isEmpty()] ([str.length === 0]) and [.notEmpty()], which is
    [.not().isEmpty()]. *)
Definition isEmpty : ValidationChain -> ValidationChain :=
  addValidator (fun s => (length s =? 0)%nat).

Definition notEmpty (c : ValidationChain) : ValidationChain :=
  c |> not_ |> isEmpty.

(** A recorded error: the field, the message, and the value that was
    validated, as it was submitted ([None] for [undefined]). *)
Record ValidationError : Type := {
  path : string;
  msg : string;
  value : option jsvalue
}.

Definition failed (v : validation) (s : jsstring) : bool :=
  if negated v then validator v s else negb (validator v s).

(** What a standard validator is run on: each element of an array, and
    anything else (a missing field too) as one value. *)
Definition values (v : option jsvalue) : list (option jsvalue) :=
  match v with
  | Some (JArray elems) => Some <$> elems
  | _ => [v]
  end.

(** Running a chain: every validator of the stack runs (the source never
    calls [.bail()]), each on every value of the field, turned into a
    string by [toString]; each failure adds an error that carries the
    value itself. *)
Definition runChain (b : gmap string jsvalue) (c : ValidationChain) : list ValidationError :=
  flat_map (fun v =>
    flat_map (fun x =>
      if failed v (toString x)
      then [ {| path := field c; msg := default "Invalid value"%string (message v);
                value := x |} ]
      else []) (values (b !! field c))) (stack c).

(** [validationResult(req).array()] after the chains ran, in order. *)
Definition validationResult (chains : list ValidationChain) (b : gmap string jsvalue)
  : list ValidationError :=
  flat_map (runChain b) chains.

End ExpressValidator.

(* ===================================================================== *)
(** * Part II: src/validations/authValidations.ts                         *)
(* ===================================================================== *)

Module AuthValidations.
Import ExpressValidator.

Definition dquote : ascii := "034"%char.

Definition lowercase_class : regex := CharClass [Range "a" "z"].
Definition uppercase_class : regex := CharClass [Range "A" "Z"].
Definition digit_class : regex := CharClass [Range "0" "9"].
Definition special_class : regex :=
  CharClass [Lit "!"; Lit "@"; Lit "#"; Lit "$"; Lit "%"; Lit "^"; Lit "&"; Lit "*";
             Lit "("; Lit ")"; Lit ","; Lit "."; Lit "?"; Lit dquote; Lit ":";
             Lit "{"; Lit "}"; Lit "|"; Lit "<"; Lit ">"].

Definition msg_email : string := "Invalid email format".
Definition msg_length : string := "Password should be at least 8 characters long".
Definition msg_lower : string := "Password should contain at least one lowercase letter".
Definition msg_upper : string := "Password should contain at least one uppercase letter".
Definition msg_digit : string := "Password should contain at least one digit".
Definition msg_special : string := "Password should contain at least one special character".
Definition msg_fullName : string := "Full name is required".
Definition msg_username : string := "Company name is required".

(** What the four character classes of the password rule mean, on code
    units. *)
Definition has_char (P : N -> Prop) (s : jsstring) : Prop :=
  ∃ c, In c s ∧ P c.

Definition is_lowercase (c : N) : Prop := (97 <= c <= 122)%N.
Definition is_uppercase (c : N) : Prop := (65 <= c <= 90)%N.
Definition is_digit (c : N) : Prop := (48 <= c <= 57)%N.

(** The special characters, as the source's pattern lists them. *)
Definition special_characters : jsstring :=
  js "!@#$%^&*(),.?" ++ [N_of_ascii dquote] ++ js ":{}|<>".

Definition is_special (c : N) : Prop := In c special_characters.

(** The errors one validator of a chain records for a field: an error for
    every value of the field whose string is bad. *)
Definition report (f m : string) (bad : jsstring -> bool) (v : option jsvalue)
  : list ValidationError :=
  flat_map (fun x =>
    if bad (toString x) then [ {| path := f; msg := m; value := x |} ] else [])
    (values v).

Section Registration.

(** validator.js's [isEmail] is a library predicate on strings; the rules
    below hold whatever it answers. *)
Variable isEmail_pred : jsstring -> bool.

Definition isEmail : ValidationChain -> ValidationChain := addValidator isEmail_pred.

Definition registrationValidation : list ValidationChain := [
  body "email" |> isEmail |> withMessage msg_email;
  body "password"
    |> isLength {| min := 8; max := None |}
    |> withMessage msg_length
    |> matches lowercase_class
    |> withMessage msg_lower
    |> matches uppercase_class
    |> withMessage msg_upper
    |> matches digit_class
    |> withMessage msg_digit
    |> matches special_class
    |> withMessage msg_special;
  body "fullName" |> notEmpty |> withMessage msg_fullName;
  body "username" |> notEmpty |> withMessage msg_username
].

(** Modelled from the spec: what the guard [handleValidationErrors] of
    [middlewares/validation] (not among the source files) answers: a
    400-class response carrying the collected errors, or the request passed
    on unchanged. *)
Inductive guard_outcome : Type :=
| Rejected (status : Z) (errors : list ValidationError)
| PassedOn.

(** Modelled from the spec: the guard [handleValidationErrors] of
    [middlewares/validation], which is not among the source files.
    Section 4.1: a downstream guard short-circuits the request with a
    400-class response carrying the collected messages if any exist,
    otherwise passes through unchanged. *)
Definition handleValidationErrors (errs : list ValidationError) : guard_outcome :=
  match errs with
  | [] => PassedOn
  | _ :: _ => Rejected 400 errs
  end.


End Registration.




End AuthValidations.

(* ===================================================================== *)
(** * Part III: Express routers                                           *)
(* ===================================================================== *)

Module Express.

Inductive method : Type := GET | POST | PUT | DELETE.

#[global] Instance method_eq_dec : EqDecision method.
Proof. solve_decision. Defined.

Section Router.

(** The handler functions a router file imports. *)
Context {Handler : Type}.

Record Route : Type := {
  verb : method;
  pattern : string;
  handlers : list Handler
}.

(** [express.Router()]: a router is the list of its routes, in the order
    they were registered. *)
Definition Router : list Route := [].

Definition register (v : method) (p : string) (hs : list Handler) (r : list Route)
  : list Route :=
  r ++ [ {| verb := v; pattern := p; handlers := hs |} ].

Definition post := register POST.
Definition put := register PUT.
Definition delete := register DELETE.
Definition get := register GET.

(** The route registered for a verb and a declared path, if any. *)
Definition route_eqb (v : method) (p : string) (rt : Route) : bool :=
  match v, verb rt with
  | GET, GET | POST, POST | PUT, PUT | DELETE, DELETE => String.eqb p (pattern rt)
  | _, _ => false
  end.

Definition lookup_route (v : method) (p : string) (r : list Route) : option Route :=
  find (route_eqb v p) r.

(** Running a route's chain.  A handler either calls [next()], handing
    the (possibly changed) request to the handler after it, or sends the
    response, after which no later handler of the chain runs.  The result
    is the list of the handlers that ran and the response, if one was sent. *)
Context {Req Res : Type}.

Inductive step : Type :=
| Next (rq : Req)
| Send (rs : Res).

Variable behaviour : Handler -> Req -> step.

Fixpoint run (hs : list Handler) (rq : Req) : list Handler * option Res :=
  match hs with
  | [] => ([], None)
  | h :: rest =>
      match behaviour h rq with
      | Send rs => ([h], Some rs)
      | Next rq' => let '(t, rs) := run rest rq' in (h :: t, rs)
      end
  end.

End Router.

Arguments Route : clear implicits.
Arguments step : clear implicits.

End Express.

(* ===================================================================== *)
(** * Part IV: the book router                                            *)
(* ===================================================================== *)

Module BookRoutes.
Import Express.

(** The names the router file imports. *)
Inductive handler : Type :=
| addBook | deleteBookById | getAllBooksBorrowedByUser | getBook | getBooks
| getFrequentlyBorrowedBooks | updateBookDetails
| handleValidationErrors
| addBookValidation | updateBookValidation
| isAuthenticated.

#[global] Instance handler_eq_dec : EqDecision handler.
Proof. solve_decision. Defined.

(** The module each name is imported from. *)
Inductive origin : Type := Controllers | Middlewares | Validations.

Definition imported_from (h : handler) : origin :=
  match h with
  | addBook | deleteBookById | getAllBooksBorrowedByUser | getBook | getBooks
  | getFrequentlyBorrowedBooks | updateBookDetails => Controllers
  | handleValidationErrors | isAuthenticated => Middlewares
  | addBookValidation | updateBookValidation => Validations
  end.

Definition is_controller (h : handler) : bool :=
  match imported_from h with Controllers => true | _ => false end.

Definition bookRouter : list (Route handler) :=
  Router
  |> post "/book/add"
       [addBookValidation; isAuthenticated; handleValidationErrors; addBook]
  |> put "/book/update/:id"
       [updateBookValidation; isAuthenticated; handleValidationErrors; updateBookDetails]
  |> delete "/book/delete/:id"
       [isAuthenticated; deleteBookById]
  |> get "/book/:id"
       [getBook]
  |> get "/book/borrowed/:id"
       [isAuthenticated; getAllBooksBorrowedByUser]
  |> get "/books"
       [getBooks]
  |> get "/books/frequently-borrowed"
       [getFrequentlyBorrowedBooks].

(** The verb, path and controller functions of every route. *)
Definition bindings (r : list (Route handler)) : list (method * string * list handler) :=
  map (fun rt => (verb rt, pattern rt, filter (fun h => is_controller h = true) (handlers rt))) r.

End BookRoutes.

(* ===================================================================== *)
(** * Part V: Prisma schemas and the tables they describe                 *)
(* ===================================================================== *)

Module Prisma.

(** ** Syntax of a schema *)

Inductive field_type : Type :=
| TInt | TString | TBoolean | TDateTime
| TNamed (n : string).            (* an enum or a model of the schema *)

Inductive modifier : Type :=
| Required                        (* [T]   *)
| Optional                        (* [T?]  *)
| Many.                           (* [T[]] *)

Inductive value : Type :=
| VNull
| VInt (z : Z)
| VString (s : string)
| VBoolean (b : bool)
| VDateTime (t : Z)
| VEnum (s : string).

#[global] Instance value_eq_dec : EqDecision value.
Proof. solve_decision. Defined.

Inductive default_value : Type :=
| autoincrement                   (* [@default(autoincrement())] *)
| now                             (* [@default(now())] *)
| literal (v : value).            (* [@default(true)], [@default(0)], [@default(USER)] *)

Inductive attribute : Type :=
| At_id
| At_unique
| At_default (d : default_value)
| At_updatedAt
| At_relation (fields references : list string).

(** [@@index([fields], name: "...")], the only block attribute in use. *)
Record Index : Type := {
  index_fields : list string;
  index_name : option string
}.

Record Field : Type := {
  name : string;
  type : field_type;
  modif : modifier;
  attributes : list attribute
}.

Record Model : Type := {
  model_name : string;
  fields : list Field;
  indexes : list Index
}.

Record Enum : Type := {
  enum_name : string;
  enum_values : list string
}.

Record Schema : Type := {
  enums : list Enum;
  models : list Model
}.

#[global] Instance modifier_eq_dec : EqDecision modifier.
Proof. solve_decision. Defined.
#[global] Instance field_type_eq_dec : EqDecision field_type.
Proof. solve_decision. Defined.
#[global] Instance default_value_eq_dec : EqDecision default_value.
Proof. solve_decision. Defined.
#[global] Instance attribute_eq_dec : EqDecision attribute.
Proof. solve_decision. Defined.
#[global] Instance Field_eq_dec : EqDecision Field.
Proof. solve_decision. Defined.
#[global] Instance Index_eq_dec : EqDecision Index.
Proof. solve_decision. Defined.

Definition find_model (S : Schema) (m : string) : option Model :=
  find (fun md => String.eqb (model_name md) m) (models S).

Definition find_enum (S : Schema) (n : string) : option Enum :=
  find (fun e => String.eqb (enum_name e) n) (enums S).

Definition find_field (md : Model) (f : string) : option Field :=
  find (fun fd => String.eqb (name fd) f) (fields md).

Definition has_attribute (a : attribute) (f : Field) : bool :=
  bool_decide (a ∈ attributes f).

Fixpoint first_default (l : list attribute) : option default_value :=
  match l with
  | [] => None
  | At_default d :: _ => Some d
  | _ :: rest => first_default rest
  end.

Definition default_of (f : Field) : option default_value := first_default (attributes f).

(** ** Columns

    A field is a column of its model's table when it is a scalar or an
    enum; a field typed by a model ([User], [Transactions[]]) is a relation
    and stores nothing itself. *)
Inductive column_type : Type :=
| CInt | CString | CBoolean | CDateTime
| CEnum (values : list string).

Definition column_type_of (S : Schema) (f : Field) : option column_type :=
  match modif f with
  | Many => None
  | _ =>
      match type f with
      | TInt => Some CInt
      | TString => Some CString
      | TBoolean => Some CBoolean
      | TDateTime => Some CDateTime
      | TNamed n => CEnum ∘ enum_values <$> find_enum S n
      end
  end.

Definition columns (S : Schema) (md : Model) : list Field :=
  filter (fun f => is_Some (column_type_of S f)) (fields md).

(** ** Constraints a schema puts on the stored rows *)

Inductive constraint : Type :=
| HasType (m f : string) (t : column_type)
| NotNull (m f : string)
| Unique (m f : string)                    (* from [@id] and [@unique] *)
| ForeignKey (m f m' f' : string).         (* from [@relation] *)

#[global] Instance column_type_eq_dec : EqDecision column_type.
Proof. solve_decision. Defined.
#[global] Instance constraint_eq_dec : EqDecision constraint.
Proof. solve_decision. Defined.

Definition field_constraints (S : Schema) (m : string) (f : Field) : list constraint :=
  match column_type_of S f with
  | Some t =>
      [HasType m (name f) t]
      ++ (if decide (modif f = Required) then [NotNull m (name f)] else [])
      ++ (if has_attribute At_id f || has_attribute At_unique f
          then [Unique m (name f)] else [])
  | None =>
      match type f with
      | TNamed m' =>
          flat_map (fun a =>
            match a with
            | At_relation fs rs => map (fun '(x, y) => ForeignKey m x m' y) (zip fs rs)
            | _ => []
            end) (attributes f)
      | _ => []
      end
  end.

Definition model_constraints (S : Schema) (md : Model) : list constraint :=
  flat_map (field_constraints S (model_name md)) (fields md).

Definition constraints (S : Schema) : list constraint :=
  flat_map (model_constraints S) (models S).

(** ** Stored data *)

Record Database : Type := {
  tables : gmap string (list (gmap string value));
  sequences : gmap string Z
}.

Definition empty_db : Database := {| tables := ∅; sequences := ∅ |}.

(** The rows of a table, oldest first. *)
Definition table (d : Database) (m : string) : list (gmap string value) :=
  default [] (tables d !! m).

Definition col (r : gmap string value) (f : string) : value :=
  default VNull (r !! f).

(** The next value of the table's id sequence. *)
Definition next_id (d : Database) (m : string) : Z :=
  default 1%Z (sequences d !! m).

Definition has_type (t : column_type) (v : value) : bool :=
  match v, t with
  | VNull, _ => true
  | VInt _, CInt => true
  | VString _, CString => true
  | VBoolean _, CBoolean => true
  | VDateTime _, CDateTime => true
  | VEnum s, CEnum vs => bool_decide (s ∈ vs)
  | _, _ => false
  end.

(** A unique column holds each non-null value at most once (several rows
    may have it null). *)
Definition holds (d : Database) (c : constraint) : Prop :=
  match c with
  | HasType m f t => Forall (fun r => has_type t (col r f) = true) (table d m)
  | NotNull m f => Forall (fun r => col r f ≠ VNull) (table d m)
  | Unique m f =>
      NoDup (filter (fun v => v ≠ VNull) ((fun r => col r f) <$> table d m))
  | ForeignKey m f m' f' =>
      Forall (fun r => col r f = VNull ∨
                       col r f ∈ ((fun r' => col r' f') <$> table d m')) (table d m)
  end.

#[global] Instance holds_dec d c : Decision (holds d c).
Proof. destruct c; simpl; apply _. Defined.

Definition db_ok (S : Schema) (d : Database) : Prop :=
  Forall (holds d) (constraints S).

#[global] Instance db_ok_dec S d : Decision (db_ok S d).
Proof. unfold db_ok. apply _. Defined.

(** ** Creating a row

    [create({ data })]: a column the data leaves out takes its default;
    without a default, [@updatedAt] takes the current time, an optional
    column is null, and a required one makes the call fail.  The row is
    stored only if every constraint of the schema still holds.  A refused
    call is [None]: what the database keeps of it (the sequence value a
    refused insert has consumed) is outside the model, as are the 32-bit
    range of [Int] and the refusal of a key the model does not declare. *)
Definition fill_field (seq tm : Z) (data : gmap string value) (f : Field) : option value :=
  match data !! name f with
  | Some v => Some v
  | None =>
      match default_of f with
      | Some autoincrement => Some (VInt seq)
      | Some now => Some (VDateTime tm)
      | Some (literal v) => Some v
      | None =>
          if has_attribute At_updatedAt f then Some (VDateTime tm)
          else match modif f with
               | Optional => Some VNull
               | _ => None
               end
      end
  end.

Fixpoint build_row (seq tm : Z) (data : gmap string value) (cols : list Field)
  : option (gmap string value) :=
  match cols with
  | [] => Some ∅
  | f :: rest =>
      match fill_field seq tm data f, build_row seq tm data rest with
      | Some v, Some r => Some (<[name f := v]> r)
      | _, _ => None
      end
  end.

Definition takes_sequence (data : gmap string value) (f : Field) : bool :=
  bool_decide (default_of f = Some autoincrement) && bool_decide (data !! name f = None).

Definition create (S : Schema) (m : string) (data : gmap string value) (tm : Z)
    (d : Database) : option (gmap string value * Database) :=
  match find_model S m with
  | None => None
  | Some md =>
      match build_row (next_id d m) tm data (columns S md) with
      | None => None
      | Some r =>
          let d' := {|
            tables := <[m := table d m ++ [r]]> (tables d);
            sequences :=
              if existsb (takes_sequence data) (columns S md)
              then <[m := (next_id d m + 1)%Z]> (sequences d)
              else sequences d |} in
          if decide (db_ok S d') then Some (r, d') else None
      end
  end.

(** The unique columns of a model, and the foreign keys it declares
    (column, referenced model, referenced column). *)
Definition unique_columns (S : Schema) (m : string) : list string :=
  omap (fun c => match c with
                 | Unique m' f => if decide (m' = m) then Some f else None
                 | _ => None
                 end) (constraints S).

Definition foreign_keys (S : Schema) (m : string) : list (string * string * string) :=
  omap (fun c => match c with
                 | ForeignKey m0 f m' f' => if decide (m0 = m) then Some (f, m', f') else None
                 | _ => None
                 end) (constraints S).

(** All the [@@index] declarations of a schema, with their model. *)
Definition declared_indexes (S : Schema) : list (string * Index) :=
  flat_map (fun md => map (fun ix => (model_name md, ix)) (indexes md)) (models S).

End Prisma.

(* ===================================================================== *)
(** * Part VI: the schema of the repository                               *)
(* ===================================================================== *)

Module LibrarySchema.
Import Prisma.

Definition UserRole : Enum :=
  {| enum_name := "UserRole"; enum_values := ["ADMIN"; "USER"] |}.

Definition Book : Model := {|
  model_name := "Book";
  fields := [
    {| name := "id"; type := TInt; modif := Required;
       attributes := [At_id; At_default autoincrement] |};
    {| name := "title"; type := TString; modif := Required; attributes := [] |};
    {| name := "author"; type := TString; modif := Required; attributes := [] |};
    {| name := "genre"; type := TString; modif := Required; attributes := [] |};
    {| name := "publishedYear"; type := TInt; modif := Required; attributes := [] |};
    {| name := "isbn"; type := TString; modif := Optional; attributes := [At_unique] |};
    {| name := "isAvailable"; type := TBoolean; modif := Required;
       attributes := [At_default (literal (VBoolean true))] |};
    {| name := "borrowedCount"; type := TInt; modif := Required;
       attributes := [At_default (literal (VInt 0))] |};
    {| name := "createdAt"; type := TDateTime; modif := Required;
       attributes := [At_default now] |};
    {| name := "updatedAt"; type := TDateTime; modif := Required;
       attributes := [At_updatedAt] |};
    {| name := "Transactions"; type := TNamed "Transactions"; modif := Many;
       attributes := [] |}
  ];
  indexes := [
    {| index_fields := ["title"; "author"]; index_name := Some "idx_book_search" |}
  ]
|}.

Definition User : Model := {|
  model_name := "User";
  fields := [
    {| name := "id"; type := TInt; modif := Required;
       attributes := [At_id; At_default autoincrement] |};
    {| name := "fullName"; type := TString; modif := Required; attributes := [] |};
    {| name := "email"; type := TString; modif := Required; attributes := [At_unique] |};
    {| name := "password"; type := TString; modif := Required; attributes := [] |};
    {| name := "username"; type := TString; modif := Optional; attributes := [At_unique] |};
    {| name := "phoneNumber"; type := TString; modif := Optional; attributes := [] |};
    {| name := "accessToken"; type := TString; modif := Optional; attributes := [] |};
    {| name := "refreshToken"; type := TString; modif := Optional; attributes := [] |};
    {| name := "role"; type := TNamed "UserRole"; modif := Required;
       attributes := [At_default (literal (VEnum "USER"))] |};
    {| name := "createdAt"; type := TDateTime; modif := Required;
       attributes := [At_default now] |};
    {| name := "updatedAt"; type := TDateTime; modif := Required;
       attributes := [At_updatedAt] |};
    {| name := "Transactions"; type := TNamed "Transactions"; modif := Many;
       attributes := [] |}
  ];
  indexes := []
|}.

Definition Transactions : Model := {|
  model_name := "Transactions";
  fields := [
    {| name := "id"; type := TInt; modif := Required;
       attributes := [At_id; At_default autoincrement] |};
    {| name := "userId"; type := TInt; modif := Required; attributes := [] |};
    {| name := "bookId"; type := TInt; modif := Required; attributes := [] |};
    {| name := "borrowedAt"; type := TDateTime; modif := Required;
       attributes := [At_default now] |};
    {| name := "returnedAt"; type := TDateTime; modif := Optional; attributes := [] |};
    {| name := "User"; type := TNamed "User"; modif := Required;
       attributes := [At_relation ["userId"] ["id"]] |};
    {| name := "Book"; type := TNamed "Book"; modif := Required;
       attributes := [At_relation ["bookId"] ["id"]] |}
  ];
  indexes := [
    {| index_fields := ["userId"]; index_name := Some "idx_transactions_user" |};
    {| index_fields := ["bookId"]; index_name := Some "idx_transactions_book" |};
    {| index_fields := ["borrowedAt"]; index_name := Some "idx_transactions_borrowed_at" |}
  ]
|}.

Definition schema : Schema :=
  {| enums := [UserRole]; models := [Book; User; Transactions] |}.

(** An open transaction: the book is out, [returnedAt] is still null. *)
Definition is_open (t : gmap string value) : Prop := col t "returnedAt" = VNull.

(** The open transactions of a book. *)
Definition open_transactions (d : Database) (book_id : value) : list (gmap string value) :=
  filter (fun t => col t "bookId" = book_id ∧ is_open t) (table d "Transactions").

(** The availability invariant of a book row: available iff no open
    transaction. *)
Definition availability_invariant (d : Database) (b : gmap string value) : Prop :=
  col b "isAvailable" = VBoolean true ↔ open_transactions d (col b "id") = [].

(** At most one open transaction per book. *)
Definition one_open_per_book (d : Database) : Prop :=
  ∀ i j t1 t2,
    table d "Transactions" !! i = Some t1 →
    table d "Transactions" !! j = Some t2 →
    is_open t1 → is_open t2 →
    col t1 "bookId" = col t2 "bookId" →
    i = j.

(** Two borrowings of one book, neither returned, stored one after the
    other through [create]. *)
Definition a_user : gmap string value :=
  list_to_map [("fullName", VString "Ada Lovelace");
               ("email", VString "ada@example.org");
               ("password", VString "hashed")].

Definition a_book : gmap string value :=
  list_to_map [("title", VString "The Great Gatsby");
               ("author", VString "F. Scott Fitzgerald");
               ("genre", VString "Classic Fiction");
               ("publishedYear", VInt 1925)].

Definition borrowing (user_id book_id : Z) : gmap string value :=
  list_to_map [("userId", VInt user_id); ("bookId", VInt book_id)].

Definition another_user : gmap string value :=
  list_to_map [("fullName", VString "Grace Hopper");
               ("email", VString "grace@example.org");
               ("password", VString "hashed");
               ("username", VString "grace")].

Definition another_book : gmap string value :=
  list_to_map [("title", VString "Emma");
               ("author", VString "Jane Austen");
               ("genre", VString "Novel");
               ("publishedYear", VInt 1815);
               ("isbn", VString "9780141439587")].

(** Two books stored without an ISBN, and two users. *)
Definition two_plain_books : option Database :=
  '(_, d1) ← create schema "Book" a_book 20 empty_db;
  '(_, d2) ← create schema "Book" a_book 21 d1;
  Some d2.

Definition two_isbn_books : option Database :=
  '(_, d1) ← create schema "Book" (<["isbn" := VString "9780743273565"]> a_book) 20 empty_db;
  '(_, d2) ← create schema "Book" another_book 21 d1;
  Some d2.

Definition two_users : option Database :=
  '(_, d1) ← create schema "User" a_user 10 empty_db;
  '(_, d2) ← create schema "User" another_user 11 d1;
  Some d2.

Definition one_user_one_book : option Database :=
  '(_, d1) ← create schema "User" a_user 10 empty_db;
  '(_, d2) ← create schema "Book" a_book 20 d1;
  Some d2.

Definition double_borrow : option Database :=
  d2 ← one_user_one_book;
  '(_, d3) ← create schema "Transactions" (borrowing 1 1) 30 d2;
  '(_, d4) ← create schema "Transactions" (borrowing 1 1) 40 d3;
  Some d4.

End LibrarySchema.

(* ===================================================================== *)
(** * Part VI-b: what the rules, the routes and the schema declare        *)
(* ===================================================================== *)

Module Declared.
Import ExpressValidator Prisma.

(** The fields a list of chains validates, and the (field, message) pairs
    it can report, both in the order of the chains. *)
Definition validated_fields (chains : list ValidationChain) : list string :=
  map field chains.

Definition declared_errors (chains : list ValidationChain) : list (string * string) :=
  flat_map (fun c =>
    map (fun v => (field c, default "Invalid value"%string (message v))) (stack c)) chains.

(** The length validator.js counts, taken unit by unit from the left: a
    variation selector counts for nothing, a surrogate pair for one. *)
Fixpoint counted_length (s : jsstring) : nat :=
  match s with
  | [] => 0
  | h :: rest =>
      if is_presentation_selector h then counted_length rest
      else match rest with
           | l :: rest' =>
               if is_high_surrogate h && is_low_surrogate l
               then S (counted_length rest')
               else S (counted_length rest)
           | [] => 1
           end
  end.

(** The field and message of a recorded error. *)
Definition site (e : ValidationError) : string * string := (path e, msg e).

(** The password of a body passes its five checks: no error is recorded
    for the password field. *)
Definition password_passes (isEmail_pred : jsstring -> bool) (b : gmap string jsvalue) : Prop :=
  Forall (fun e => path e ≠ "password"%string)
         (validationResult (AuthValidations.registrationValidation isEmail_pred) b).

(** The columns a caller of [create] has to supply: those [fill_field]
    has nothing to put in when the data leaves them out. *)
Definition mandatory_inputs (S : Schema) (md : Model) : list string :=
  name <$> filter (fun f => default_of f = None
                            ∧ has_attribute At_updatedAt f = false
                            ∧ modif f ≠ Optional) (columns S md).

(** A behaviour in which isAuthenticated answers 401 itself and every
    other handler calls next. *)
Definition rejecting_auth (h : BookRoutes.handler) (rq : nat) : Express.step nat nat :=
  match h with
  | BookRoutes.isAuthenticated => Express.Send 401%nat
  | _ => Express.Next rq
  end.

(** A behaviour in which every guard adds one to the request and every
    controller answers with the request it received. *)
Definition counting (h : BookRoutes.handler) (rq : nat) : Express.step nat nat :=
  if BookRoutes.is_controller h then Express.Send rq else Express.Next (S rq).

(** The request that reaches the handler placed after [hs], when every
    handler of [hs] calls next; [None] when one of them sends the response
    itself. *)
Fixpoint thread {Req Res : Type} (behaviour : BookRoutes.handler -> Req -> Express.step Req Res)
    (hs : list BookRoutes.handler) (rq : Req) : option Req :=
  match hs with
  | [] => Some rq
  | h :: rest =>
      match behaviour h rq with
      | Express.Next rq' => thread behaviour rest rq'
      | Express.Send _ => None
      end
  end.

(** A first borrowing: one user, one book, and a transaction for them. *)
Definition first_borrow : option (gmap string value * Database) :=
  d ← LibrarySchema.one_user_one_book;
  create LibrarySchema.schema "Transactions" (LibrarySchema.borrowing 1 1) 30 d.

End Declared.

(* ===================================================================== *)
(** * Part VII: properties of the registration rules                      *)
(* ===================================================================== *)

Module AuthValidationsFacts.
Import ExpressValidator AuthValidations Declared.

Lemma test_has_char r s :
  test r s = true ↔ has_char (fun c => class_matches r c = true) s.
Proof.
  unfold test, has_char. rewrite existsb_exists. reflexivity.
Qed.


Lemma has_char_iff (P Q : N -> Prop) s :
  (∀ c, P c ↔ Q c) → has_char P s ↔ has_char Q s.
Proof.
  intros HPQ. unfold has_char. split; intros [c [Hin Hc]]; exists c; split; auto;
    by apply HPQ.
Qed.

Lemma range_matches lo hi c :
  class_matches (CharClass [Range lo hi]) c = true
  ↔ (N_of_ascii lo <= c <= N_of_ascii hi)%N.
Proof.
  unfold class_matches; simpl. rewrite orb_false_r, andb_true_iff, !N.leb_le.
  reflexivity.
Qed.

Lemma lits_match l c :
  class_matches (CharClass (map Lit l)) c = true ↔ In c (map N_of_ascii l).
Proof.
  unfold class_matches; simpl. induction l as [|a l IH]; simpl.
  - split; [discriminate | tauto].
  - rewrite orb_true_iff, IH, N.eqb_eq. reflexivity.
Qed.

Lemma lowercase_matches c : class_matches lowercase_class c = true ↔ is_lowercase c.
Proof. apply range_matches. Qed.

Lemma uppercase_matches c : class_matches uppercase_class c = true ↔ is_uppercase c.
Proof. apply range_matches. Qed.

Lemma digit_matches c : class_matches digit_class c = true ↔ is_digit c.
Proof. apply range_matches. Qed.

Lemma special_matches c : class_matches special_class c = true ↔ is_special c.
Proof.
  apply (lits_match (list_ascii_of_string "!@#$%^&*(),.?" ++ [dquote]
                     ++ list_ascii_of_string ":{}|<>")).
Qed.

(** ** The values of a field *)

Lemma values_undefined : values None = [None].
Proof. reflexivity. Qed.

Lemma values_not_array v :
  (∀ l, v ≠ Some (JArray l)) → values v = [v].
Proof.
  intros Hv. destruct v as [[| | | |l]|]; try reflexivity. by destruct (Hv l).
Qed.

Lemma values_strings l : values (Some (JArray (JString <$> l))) = Some ∘ JString <$> l.
Proof. unfold values. by rewrite <- list_fmap_compose. Qed.

(** ** The errors of one validator *)

Lemma elem_of_report e f m bad v :
  e ∈ report f m bad v
  ↔ ∃ x, x ∈ values v ∧ bad (toString x) = true
         ∧ e = {| path := f; msg := m; value := x |}.
Proof.
  unfold report. rewrite list_elem_of_In, in_flat_map. split.
  - intros (x & Hx & He). exists x. rewrite list_elem_of_In. split; [exact Hx|].
    destruct (bad (toString x)); simpl in He; [|tauto].
    destruct He as [<-|[]]. by split.
  - intros (x & Hx & Hbad & ->). exists x. rewrite <- list_elem_of_In.
    split; [exact Hx|]. rewrite Hbad. by left.
Qed.

Lemma site_in_report f' m' f m bad v :
  (f', m') ∈ site <$> report f m bad v
  ↔ (f' = f ∧ m' = m) ∧ ∃ x, x ∈ values v ∧ bad (toString x) = true.
Proof.
  rewrite list_elem_of_fmap. split.
  - intros (e & Hs & He). apply elem_of_report in He as (x & Hx & Hbad & ->).
    unfold site in Hs; simpl in Hs. injection Hs as -> ->. eauto.
  - intros ((-> & ->) & x & Hx & Hbad).
    exists {| path := f; msg := m; value := x |}. split; [reflexivity|].
    apply elem_of_report. eauto.
Qed.

Lemma report_nil f m bad v :
  report f m bad v = [] ↔ ∀ x, x ∈ values v → bad (toString x) = false.
Proof.
  split.
  - intros Hnil x Hx. destruct (bad (toString x)) eqn:Hbad; [|reflexivity].
    assert (He : {| path := f; msg := m; value := x |} ∈ report f m bad v)
      by (apply elem_of_report; eauto).
    rewrite Hnil in He. by apply elem_of_nil in He.
  - intros Hall. apply elem_of_nil_inv. intros e He.
    apply elem_of_report in He as (x & Hx & Hbad & _).
    rewrite (Hall x Hx) in Hbad. discriminate Hbad.
Qed.

Lemma report_one f m bad v :
  values v = [v] →
  report f m bad v
  = if bad (toString v) then [ {| path := f; msg := m; value := v |} ] else [].
Proof. unfold report. intros ->. simpl. apply app_nil_r. Qed.

Lemma exists_one {A : Type} (P : A -> Prop) (v : A) :
  (∃ x, x ∈ [v] ∧ P x) ↔ P v.
Proof.
  split.
  - intros (x & Hx & HP). apply list_elem_of_singleton in Hx. by subst.
  - intros HP. exists v. split; [apply list_elem_of_here | exact HP].
Qed.

(** The sites of one validator's errors: its own site, at most once per
    value of the field. *)
Lemma report_sites_sublist f m bad v :
  site <$> report f m bad v `sublist_of` replicate (length (values v)) (f, m).
Proof.
  unfold report. induction (values v) as [|x xs IH]; simpl; [constructor|].
  destruct (bad (toString x)); simpl.
  - by apply sublist_skip.
  - by apply sublist_cons.
Qed.

(** ** The length validator.js counts *)

Lemma selector_not_high c :
  is_presentation_selector c = true → is_high_surrogate c = false.
Proof.
  unfold is_presentation_selector, is_high_surrogate.
  rewrite orb_true_iff, !N.eqb_eq. intros [->| ->]; reflexivity.
Qed.

Lemma low_not_selector c :
  is_low_surrogate c = true → is_presentation_selector c = false.
Proof.
  unfold is_presentation_selector, is_low_surrogate.
  rewrite andb_true_iff, !N.leb_le. intros [Hlo Hhi].
  apply orb_false_iff. split; apply N.eqb_neq; lia.
Qed.

Lemma low_not_high c : is_low_surrogate c = true → is_high_surrogate c = false.
Proof.
  unfold is_high_surrogate, is_low_surrogate.
  rewrite andb_true_iff, andb_false_iff, !N.leb_le, !N.leb_gt. intros [Hlo Hhi].
  right. lia.
Qed.

Lemma counted_length_cons h s :
  counted_length (h :: s)
  = if is_presentation_selector h then counted_length s
    else match s with
         | l :: rest' =>
             if is_high_surrogate h && is_low_surrogate l
             then S (counted_length rest')
             else S (counted_length s)
         | [] => 1
         end.
Proof. reflexivity. Qed.

Lemma surrogate_pairs_cons h s :
  surrogate_pairs (h :: s)
  = match s with
    | l :: rest' =>
        if is_high_surrogate h && is_low_surrogate l
        then S (surrogate_pairs rest')
        else surrogate_pairs s
    | [] => 0
    end.
Proof. reflexivity. Qed.

Lemma presentation_sequences_cons h s :
  presentation_sequences (h :: s)
  = (if is_presentation_selector h then 1 else 0) + presentation_sequences s.
Proof.
  unfold presentation_sequences. simpl. by destruct (is_presentation_selector h).
Qed.

(** The count of the source, a difference of three numbers, is the
    length counted unit by unit. *)
Lemma validator_length_counted_bound n s :
  length s <= n →
  presentation_sequences s + 2 * surrogate_pairs s <= length s
  ∧ validator_length s = counted_length s.
Proof.
  unfold validator_length.
  revert s. induction n as [|n IH]; intros s Hlen.
  - destruct s; [split; simpl; lia | simpl in Hlen; lia].
  - destruct s as [|h rest]; [split; simpl; lia|].
    simpl in Hlen. assert (Hrest : length rest <= n) by lia.
    destruct (IH rest Hrest) as [Hb Heq].
    rewrite presentation_sequences_cons, surrogate_pairs_cons, counted_length_cons.
    destruct (is_presentation_selector h) eqn:Hsel.
    + rewrite (selector_not_high h Hsel). simpl andb.
      destruct rest as [|l rest']; [split; simpl; lia|].
      cbv iota. simpl length in *. split; [lia|]. rewrite <- Heq. lia.
    + destruct rest as [|l rest']; [split; simpl; lia|].
      destruct (is_high_surrogate h && is_low_surrogate l) eqn:Hpair.
      * apply andb_true_iff in Hpair as [_ Hlow].
        assert (Hrest' : length rest' <= n) by (simpl in Hrest; lia).
        destruct (IH rest' Hrest') as [Hb' Heq'].
        rewrite presentation_sequences_cons, (low_not_selector l Hlow).
        simpl length. split; [lia|]. rewrite <- Heq'. lia.
      * simpl length in *. split; [lia|]. rewrite <- Heq. lia.
Qed.

Lemma validator_length_counted s : validator_length s = counted_length s.
Proof. by apply (validator_length_counted_bound (length s) s). Qed.

Lemma counted_length_cons_ge h s : counted_length s <= counted_length (h :: s).
Proof.
  rewrite counted_length_cons.
  destruct (is_presentation_selector h); [done|].
  destruct s as [|l rest']; [simpl; lia|].
  destruct (is_high_surrogate h && is_low_surrogate l) eqn:Hpair; [|lia].
  apply andb_true_iff in Hpair as [_ Hlow].
  rewrite counted_length_cons, (low_not_selector l Hlow), (low_not_high l Hlow).
  simpl andb. destruct rest'; simpl; lia.
Qed.

Lemma counted_length_app_r a b : counted_length b <= counted_length (a ++ b).
Proof.
  induction a as [|h a IH]; [done|].
  simpl app. etransitivity; [exact IH | apply counted_length_cons_ge].
Qed.

Lemma counted_length_app_l_bound n a b :
  length a <= n → counted_length a <= counted_length (a ++ b).
Proof.
  revert a. induction n as [|n IH]; intros a Hlen.
  - destruct a; [simpl; lia | simpl in Hlen; lia].
  - destruct a as [|h rest]; [simpl; lia|].
    simpl in Hlen. assert (Hrest : length rest <= n) by lia.
    simpl app. rewrite !counted_length_cons.
    destruct (is_presentation_selector h); [by apply IH|].
    destruct rest as [|l rest']; simpl app; cbv iota.
    + destruct b as [|l b']; [done|].
      destruct (is_high_surrogate h && is_low_surrogate l); lia.
    + destruct (is_high_surrogate h && is_low_surrogate l).
      * apply le_n_S, IH. simpl in Hrest. lia.
      * apply le_n_S. by apply (IH (l :: rest')).
Qed.

Lemma counted_length_app_l a b : counted_length a <= counted_length (a ++ b).
Proof. by apply (counted_length_app_l_bound (length a)). Qed.

(** Text put before and after a string does not make it shorter. *)
Lemma validator_length_extend pre s post :
  validator_length s <= validator_length (pre ++ s ++ post).
Proof.
  rewrite !validator_length_counted.
  etransitivity; [apply (counted_length_app_l s post) | apply counted_length_app_r].
Qed.

Lemma test_extend r pre s post : test r s = true → test r (pre ++ s ++ post) = true.
Proof.
  unfold test. rewrite !existsb_app. intros ->. by rewrite orb_true_r.
Qed.

Section Registration.
Variable isEmail_pred : jsstring -> bool.
Variable b : gmap string jsvalue.

(** The errors of a registration body, validator by validator. *)
Lemma registration_errors :
  validationResult (registrationValidation isEmail_pred) b =
    report "email" msg_email (fun s => negb (isEmail_pred s)) (b !! "email")
    ++ report "password" msg_length
         (fun s => negb ((8 <=? validator_length s)%nat && true)) (b !! "password")
    ++ report "password" msg_lower (fun s => negb (test lowercase_class s)) (b !! "password")
    ++ report "password" msg_upper (fun s => negb (test uppercase_class s)) (b !! "password")
    ++ report "password" msg_digit (fun s => negb (test digit_class s)) (b !! "password")
    ++ report "password" msg_special (fun s => negb (test special_class s)) (b !! "password")
    ++ report "fullName" msg_fullName (fun s => (length s =? 0)%nat) (b !! "fullName")
    ++ report "username" msg_username (fun s => (length s =? 0)%nat) (b !! "username").
Proof.
  unfold validationResult, registrationValidation, runChain, report, failed; simpl.
  rewrite !app_nil_r. repeat rewrite <- List.app_assoc. reflexivity.
Qed.

End Registration.

End AuthValidationsFacts.

(* ===================================================================== *)
(** * Part VIII: properties of handler chains                             *)
(* ===================================================================== *)

Module BookRoutesFacts.
Import Express BookRoutes.

Section Chains.
Context {Req Res : Type}.
Variable behaviour : handler -> Req -> step Req Res.

(** A chain that is not empty runs at least its first handler. *)
Lemma run_cons_trace h hs (rq : Req) :
  ∃ t, (run behaviour (h :: hs) rq).1 = h :: t.
Proof.
  simpl. destruct (behaviour h rq) as [rq'|rs].
  - destruct (run behaviour hs rq') as [t r]. by exists t.
  - by exists [].
Qed.

Lemma run_app_trace gs c (rq : Req) :
  ∃ x t, (run behaviour (gs ++ [c]) rq).1 = x :: t.
Proof.
  destruct gs as [|g gs]; simpl app; [exists c | exists g]; apply run_cons_trace.
Qed.

(** The handlers that ran are the first ones of the chain, in order. *)
Lemma run_prefix hs (rq : Req) : (run behaviour hs rq).1 `prefix_of` hs.
Proof.
  revert rq. induction hs as [|h hs IH]; intros rq; simpl.
  - done.
  - destruct (behaviour h rq) as [rq'|rs].
    + specialize (IH rq'). destruct (run behaviour hs rq') as [t r]. simpl in *.
      by apply prefix_cons.
    + simpl. apply prefix_cons, prefix_nil.
Qed.

(** In a chain made of guards followed by one controller, a run whose
    last handler is a guard never reached the controller. *)
Lemma run_stopped_by_guard guards c (rq : Req) g :
  Forall (fun h => is_controller h = false) guards →
  is_controller c = true →
  last (run behaviour (guards ++ [c]) rq).1 = Some g →
  is_controller g = false →
  Forall (fun h => is_controller h = false) (run behaviour (guards ++ [c]) rq).1.
Proof.
  intros Hguards Hc. revert rq.
  induction Hguards as [|g0 gs Hg0 Hgs IH]; intros rq Hlast Hg.
  - simpl in *. destruct (behaviour c rq); simpl in *;
      injection Hlast as <-; congruence.
  - simpl in *. destruct (behaviour g0 rq) as [rq'|rs]; simpl.
    + specialize (IH rq').
      destruct (run_app_trace gs c rq') as [x [t Ht]].
      destruct (run behaviour (gs ++ [c]) rq') as [t' r] eqn:E. simpl in *. subst t'.
      constructor; [exact Hg0|]. apply IH; [|exact Hg]. exact Hlast.
    + constructor; [exact Hg0 | constructor].
Qed.

(** A guard that answers every request itself stops the chain: the
    controller after the guards does not run and a response is sent. *)
Lemma run_answered_by_guard guards c (rq : Req) g :
  Forall (fun h => is_controller h = false) guards →
  g ∈ guards →
  (∀ rq', ∃ rs, behaviour g rq' = Send rs) →
  Forall (fun h => is_controller h = false) (run behaviour (guards ++ [c]) rq).1
  ∧ is_Some (run behaviour (guards ++ [c]) rq).2.
Proof.
  intros Hguards Hg Hsend. revert rq.
  induction Hguards as [|g0 gs Hg0 Hgs IH]; intros rq.
  - by apply elem_of_nil in Hg.
  - simpl. destruct (behaviour g0 rq) as [rq'|rs] eqn:Hb; simpl.
    + apply elem_of_cons in Hg as [->|Hg].
      * destruct (Hsend rq) as [rs Hrs]. congruence.
      * destruct (IH Hg rq') as [Htrace Hresp].
        destruct (run behaviour (gs ++ [c]) rq') as [t r]. simpl in *.
        split; [by constructor | exact Hresp].
    + split; [by repeat constructor | by eexists].
Qed.

(** The handler that sends the response is the last one to run. *)
Lemma run_stops_at_send pre g post (rq rq' : Req) rs :
  Declared.thread behaviour pre rq = Some rq' →
  behaviour g rq' = Send rs →
  run behaviour (pre ++ g :: post) rq = (pre ++ [g], Some rs).
Proof.
  revert rq. induction pre as [|h pre IH]; intros rq Hthread Hsend; simpl in *.
  - injection Hthread as ->. by rewrite Hsend.
  - destruct (behaviour h rq) as [rq1|rs1]; [|discriminate].
    by rewrite (IH rq1 Hthread Hsend).
Qed.

Lemma split_guards guards c pre g post :
  guards ++ [c] = pre ++ g :: post →
  is_controller c = true →
  is_controller g = false →
  ∃ post', post = post' ++ [c] ∧ guards = pre ++ g :: post'.
Proof.
  intros Heq Hc Hg. destruct post as [|x post'] using rev_ind.
  - apply app_inj_tail in Heq as [_ ->]. congruence.
  - clear IHpost'. exists post'.
    change (guards ++ [c] = pre ++ (g :: post') ++ [x]) in Heq.
    rewrite List.app_assoc in Heq. apply app_inj_tail in Heq as [-> ->]. by split.
Qed.

End Chains.

End BookRoutesFacts.

(* ===================================================================== *)
(** * Part IX: properties of tables under a schema                        *)
(* ===================================================================== *)

Module PrismaFacts.
Import Prisma.

Lemma db_ok_holds S d c : db_ok S d → c ∈ constraints S → holds d c.
Proof. unfold db_ok. rewrite Forall_forall. auto. Qed.

(** Values that survive a filter and sit at two positions of a list
    without repetition sit at the same position. *)
Lemma NoDup_filter_fmap_lookup {A B : Type} (g : A -> B) (P : B -> Prop)
    `{∀ x, Decision (P x)} (l : list A) i j a a' :
  NoDup (filter P (g <$> l)) →
  l !! i = Some a → l !! j = Some a' →
  g a = g a' → P (g a) →
  i = j.
Proof.
  revert i j. induction l as [|x l IH]; intros i j Hnd Hi Hj Heq HP.
  - discriminate Hi.
  - rewrite fmap_cons, filter_cons in Hnd.
    assert (Htail : NoDup (filter P (g <$> l))).
    { destruct (decide (P (g x))); [by apply NoDup_cons in Hnd as [_ ?] | done]. }
    assert (Hfresh : ∀ k y, l !! k = Some y → g y = g x → P (g x) → False).
    { intros k y Hk Hy Hx. rewrite decide_True in Hnd by done.
      apply NoDup_cons in Hnd as [Hnotin _]. apply Hnotin.
      apply list_elem_of_filter. split; [done|].
      rewrite <- Hy. apply list_elem_of_fmap. exists y. split; [done|].
      by eapply list_elem_of_lookup_2. }
    destruct i as [|i], j as [|j]; simpl in *.
    + reflexivity.
    + injection Hi as <-. exfalso. eapply Hfresh; eauto.
    + injection Hj as <-. exfalso. eapply Hfresh; eauto. by rewrite <- Heq.
    + f_equal. by eapply IH.
Qed.

(** Two rows of a table that agree on a unique column, where it is not
    null, are the same row. *)
Lemma unique_rows d m f i j r1 r2 :
  holds d (Unique m f) →
  table d m !! i = Some r1 → table d m !! j = Some r2 →
  col r1 f = col r2 f → col r1 f ≠ VNull →
  i = j.
Proof.
  simpl. intros Hnd Hi Hj Heq Hnn.
  by eapply (NoDup_filter_fmap_lookup (fun r => col r f) (fun v => v ≠ VNull)).
Qed.

Lemma not_null_rows d m f r :
  holds d (NotNull m f) → r ∈ table d m → col r f ≠ VNull.
Proof. simpl. rewrite Forall_forall. auto. Qed.

Lemma typed_rows d m f t r :
  holds d (HasType m f t) → r ∈ table d m → has_type t (col r f) = true.
Proof. simpl. rewrite Forall_forall. auto. Qed.

Lemma foreign_rows d m f m' f' r :
  holds d (ForeignKey m f m' f') → r ∈ table d m → col r f ≠ VNull →
  ∃ r', r' ∈ table d m' ∧ col r' f' = col r f.
Proof.
  simpl. rewrite Forall_forall. intros Hfk Hr Hnn.
  destruct (Hfk r Hr) as [Hnull|Hin]; [done|].
  apply list_elem_of_fmap in Hin as (r' & Heq & Hr'). eauto.
Qed.

(** Each column of a built row holds what [fill_field] gave it. *)
Lemma build_row_lookup seq tm data cols r f :
  build_row seq tm data cols = Some r →
  NoDup (name <$> cols) →
  f ∈ cols →
  r !! name f = fill_field seq tm data f.
Proof.
  revert r. induction cols as [|f0 rest IH]; intros r Hb Hnd Hf.
  - by apply elem_of_nil in Hf.
  - simpl in Hb. rewrite fmap_cons in Hnd. apply NoDup_cons in Hnd as [Hnotin Hnd].
    destruct (fill_field seq tm data f0) as [v|] eqn:Hv; [|discriminate].
    destruct (build_row seq tm data rest) as [r'|] eqn:Hr; [|discriminate].
    injection Hb as <-.
    apply elem_of_cons in Hf as [->|Hf].
    + by rewrite lookup_insert_eq.
    + rewrite lookup_insert_ne; [by apply IH|].
      intros Heq. apply Hnotin. rewrite Heq. apply list_elem_of_fmap. eauto.
Qed.

Lemma table_insert_eq d m rows sq :
  table {| tables := <[m := rows]> (tables d); sequences := sq |} m = rows.
Proof. unfold table; simpl. by rewrite lookup_insert_eq. Qed.

Lemma table_insert_ne d m m' rows sq :
  m ≠ m' →
  table {| tables := <[m := rows]> (tables d); sequences := sq |} m' = table d m'.
Proof. intros Hne. unfold table; simpl. by rewrite lookup_insert_ne. Qed.

(** What a successful [create] did. *)
Lemma create_inv S m data tm d r d' :
  create S m data tm d = Some (r, d') →
  ∃ md, find_model S m = Some md
    ∧ build_row (next_id d m) tm data (columns S md) = Some r
    ∧ db_ok S d'
    ∧ table d' m = table d m ++ [r]
    ∧ (∀ m', m ≠ m' → table d' m' = table d m').
Proof.
  unfold create. intros Hc.
  destruct (find_model S m) as [md|]; [|discriminate].
  destruct (build_row (next_id d m) tm data (columns S md)) as [r0|] eqn:Hb;
    [|discriminate].
  destruct (decide (db_ok S _)) as [Hok|]; [|discriminate].
  injection Hc as <- <-. exists md.
  split; [reflexivity|]. split; [exact Hb|]. split; [exact Hok|]. split.
  - apply table_insert_eq.
  - intros m' Hne. by apply table_insert_ne.
Qed.

(** A [create] that drew the id from the sequence moved the sequence on. *)
Lemma create_sequence S m data tm d r d' md :
  create S m data tm d = Some (r, d') →
  find_model S m = Some md →
  existsb (takes_sequence data) (columns S md) = true →
  next_id d' m = (next_id d m + 1)%Z.
Proof.
  unfold create. intros Hc Hmd Hseq. rewrite Hmd, Hseq in Hc.
  destruct (build_row (next_id d m) tm data (columns S md)) as [r0|]; [|discriminate].
  destruct (decide (db_ok S _)); [|discriminate].
  injection Hc as <- <-. unfold next_id at 1; simpl. by rewrite lookup_insert_eq.
Qed.

(** A column of a created row holds the supplied value or its default. *)
Lemma created_column S m data tm d r d' md f :
  create S m data tm d = Some (r, d') →
  find_model S m = Some md →
  NoDup (name <$> columns S md) →
  f ∈ columns S md →
  r !! name f = fill_field (next_id d m) tm data f.
Proof.
  intros Hc Hmd Hnd Hf.
  apply create_inv in Hc as (md' & Hmd' & Hb & _).
  rewrite Hmd in Hmd'. injection Hmd' as <-.
  by eapply build_row_lookup.
Qed.

Lemma filter_none {A : Type} (P : A -> Prop) `{∀ x, Decision (P x)} (l : list A) :
  (∀ x, x ∈ l → ¬ P x) → filter P l = [].
Proof.
  intros Hno. apply elem_of_nil_inv. intros x Hx.
  apply list_elem_of_filter in Hx as [HP Hin]. by apply (Hno x).
Qed.

(** An option that evaluates to [Some] is [Some]. *)
Lemma is_Some_compute {A : Type} (o : option A) :
  from_option (fun _ => true) false o = true → is_Some o.
Proof. destruct o; [eauto | discriminate]. Qed.

End PrismaFacts.

(* ===================================================================== *)
(** * Part X: the properties of the specification                         *)
(* ===================================================================== *)

Section RegistrationClaims.
Import ExpressValidator AuthValidations AuthValidationsFacts Declared.

Local Ltac differ H :=
  match type of H with
  | ?a = ?b =>
      let Hne := fresh "Hne" in
      assert (Hne : String.eqb a b = false) by (vm_compute; reflexivity);
      apply String.eqb_neq in Hne; exact (Hne H)
  end.

Local Ltac settle_site :=
  rewrite !elem_of_app, !site_in_report;
  split;
  [ intros H; repeat (destruct H as [H|H]); destruct H as [[Hf Hm] Hx];
    first [ exact Hx | exfalso; first [ differ Hf | differ Hm ] ]
  | intros Hx;
    repeat (match goal with
            | |- _ ∨ _ => first [ left; split; [split; reflexivity | exact Hx] | right ]
            end);
    (split; [split; reflexivity | exact Hx]) ].

(** When each of the eight (field, message) pairs is among the recorded
    errors: when some value of the field fails that validator. *)
Lemma reported_iff (isEmail_pred : jsstring -> bool) (b : gmap string jsvalue) :
  let sites := site <$> validationResult (registrationValidation isEmail_pred) b in
  (("email"%string, msg_email) ∈ sites
     ↔ ∃ x, x ∈ values (b !! "email") ∧ negb (isEmail_pred (toString x)) = true)
  ∧ (("password"%string, msg_length) ∈ sites
     ↔ ∃ x, x ∈ values (b !! "password")
            ∧ negb ((8 <=? validator_length (toString x))%nat && true) = true)
  ∧ (("password"%string, msg_lower) ∈ sites
     ↔ ∃ x, x ∈ values (b !! "password") ∧ negb (test lowercase_class (toString x)) = true)
  ∧ (("password"%string, msg_upper) ∈ sites
     ↔ ∃ x, x ∈ values (b !! "password") ∧ negb (test uppercase_class (toString x)) = true)
  ∧ (("password"%string, msg_digit) ∈ sites
     ↔ ∃ x, x ∈ values (b !! "password") ∧ negb (test digit_class (toString x)) = true)
  ∧ (("password"%string, msg_special) ∈ sites
     ↔ ∃ x, x ∈ values (b !! "password") ∧ negb (test special_class (toString x)) = true)
  ∧ (("fullName"%string, msg_fullName) ∈ sites
     ↔ ∃ x, x ∈ values (b !! "fullName") ∧ (length (toString x) =? 0)%nat = true)
  ∧ (("username"%string, msg_username) ∈ sites
     ↔ ∃ x, x ∈ values (b !! "username") ∧ (length (toString x) =? 0)%nat = true).
Proof.
  intros sites. subst sites. rewrite registration_errors, !fmap_app.
  split; [|split; [|split; [|split; [|split; [|split; [|split]]]]]]; settle_site.
Qed.

Lemma length_zero_iff (s : jsstring) : (length s =? 0)%nat = true ↔ s = [].
Proof.
  rewrite Nat.eqb_eq. destruct s; simpl; split; intros H; try reflexivity; discriminate H.
Qed.










End RegistrationClaims.

Section BookRouterClaims.
Import Express BookRoutes BookRoutesFacts.

Lemma bookRouter_routes :
  bookRouter = [
    {| verb := POST; pattern := "/book/add";
       handlers := [addBookValidation; isAuthenticated; handleValidationErrors; addBook] |};
    {| verb := PUT; pattern := "/book/update/:id";
       handlers := [updateBookValidation; isAuthenticated; handleValidationErrors;
                    updateBookDetails] |};
    {| verb := DELETE; pattern := "/book/delete/:id";
       handlers := [isAuthenticated; deleteBookById] |};
    {| verb := GET; pattern := "/book/:id"; handlers := [getBook] |};
    {| verb := GET; pattern := "/book/borrowed/:id";
       handlers := [isAuthenticated; getAllBooksBorrowedByUser] |};
    {| verb := GET; pattern := "/books"; handlers := [getBooks] |};
    {| verb := GET; pattern := "/books/frequently-borrowed";
       handlers := [getFrequentlyBorrowedBooks] |} ].
Proof. reflexivity. Qed.

Local Ltac each_route H :=
  rewrite bookRouter_routes in H;
  repeat (apply elem_of_cons in H as [->|H]); [..| by apply elem_of_nil in H].

Lemma route_guards_then_controller rt :
  rt ∈ bookRouter →
  ∃ guards c, handlers rt = guards ++ [c]
    ∧ Forall (fun h => is_controller h = false) guards
    ∧ is_controller c = true.
Proof.
  intros H. each_route H; simpl.
  - exists [addBookValidation; isAuthenticated; handleValidationErrors], addBook.
    repeat split; repeat constructor.
  - exists [updateBookValidation; isAuthenticated; handleValidationErrors], updateBookDetails.
    repeat split; repeat constructor.
  - exists [isAuthenticated], deleteBookById. repeat split; repeat constructor.
  - exists [], getBook. repeat split; repeat constructor.
  - exists [isAuthenticated], getAllBooksBorrowedByUser. repeat split; repeat constructor.
  - exists [], getBooks. repeat split; repeat constructor.
  - exists [], getFrequentlyBorrowedBooks. repeat split; repeat constructor.
Qed.

(** C5.  The book router has exactly seven routes, with pairwise distinct
    verb and path, in this order; the chain of each contains exactly one
    controller function: POST /book/add addBook, PUT /book/update/:id
    updateBookDetails, DELETE /book/delete/:id deleteBookById,
    GET /book/:id getBook, GET /book/borrowed/:id getAllBooksBorrowedByUser,
    GET /books getBooks, GET /books/frequently-borrowed
    getFrequentlyBorrowedBooks. *)
Theorem C5_book_router_bindings :
  bindings bookRouter =
    [ (POST, "/book/add"%string, [addBook]);
      (PUT, "/book/update/:id"%string, [updateBookDetails]);
      (DELETE, "/book/delete/:id"%string, [deleteBookById]);
      (GET, "/book/:id"%string, [getBook]);
      (GET, "/book/borrowed/:id"%string, [getAllBooksBorrowedByUser]);
      (GET, "/books"%string, [getBooks]);
      (GET, "/books/frequently-borrowed"%string, [getFrequentlyBorrowedBooks]) ]
  ∧ length bookRouter = 7
  ∧ NoDup (map (fun rt => (verb rt, pattern rt)) bookRouter).
Proof.
  split; [reflexivity | split; [reflexivity | compute_done]].
Qed.

(** C6.  Every chain of the book router is a list of validation and
    middleware handlers followed by its controller, which comes last; on
    POST /book/add and PUT /book/update/:id the order is validation rules,
    isAuthenticated, handleValidationErrors, controller.  A validation or
    middleware handler that answers the request itself stops the chain
    before the controller: when such a handler of the route answers every
    request, no controller runs and a response is sent; and in any run,
    when the handlers before one of them all called next and it sends the
    response, it is the last handler to run, the response is its own, and
    no controller ran. *)
Theorem C6_guards_run_before_controller :
  (∀ rt, rt ∈ bookRouter →
     ∃ guards c, handlers rt = guards ++ [c]
       ∧ Forall (fun h => is_controller h = false) guards
       ∧ is_controller c = true)
  ∧ handlers <$> lookup_route POST "/book/add" bookRouter
      = Some [addBookValidation; isAuthenticated; handleValidationErrors; addBook]
  ∧ handlers <$> lookup_route PUT "/book/update/:id" bookRouter
      = Some [updateBookValidation; isAuthenticated; handleValidationErrors;
              updateBookDetails]
  ∧ (∀ (Req Res : Type) (behaviour : handler -> Req -> step Req Res) rt rq g,
       rt ∈ bookRouter →
       g ∈ handlers rt →
       is_controller g = false →
       (∀ rq', ∃ rs, behaviour g rq' = Send rs) →
       Forall (fun h => is_controller h = false) (run behaviour (handlers rt) rq).1
       ∧ is_Some (run behaviour (handlers rt) rq).2)
  ∧ (∀ (Req Res : Type) (behaviour : handler -> Req -> step Req Res)
       rt rq pre g post rq' rs,
       rt ∈ bookRouter →
       handlers rt = pre ++ g :: post →
       is_controller g = false →
       Declared.thread behaviour pre rq = Some rq' →
       behaviour g rq' = Send rs →
       run behaviour (handlers rt) rq = (pre ++ [g], Some rs)
       ∧ Forall (fun h => is_controller h = false) (pre ++ [g])).
Proof.
  split; [exact route_guards_then_controller |].
  split; [reflexivity |]. split; [reflexivity |]. split.
  - intros Req Res behaviour rt rq g Hrt Hin Hg Hsend.
    destruct (route_guards_then_controller rt Hrt) as (guards & c & Heq & Hguards & Hc).
    rewrite Heq in *.
    apply (run_answered_by_guard behaviour guards c rq g); [exact Hguards | | exact Hsend].
    apply elem_of_app in Hin as [Hin|Hin]; [exact Hin|].
    apply list_elem_of_singleton in Hin. congruence.
  - intros Req Res behaviour rt rq pre g post rq' rs Hrt Hsplit Hg Hthread Hsend.
    split; [rewrite Hsplit; by apply (run_stops_at_send behaviour pre g post rq rq' rs)|].
    destruct (route_guards_then_controller rt Hrt) as (guards & c & Heq & Hguards & Hc).
    rewrite Heq in Hsplit.
    destruct (split_guards guards c pre g post Hsplit Hc Hg) as (post' & _ & ->).
    apply Forall_app in Hguards as [Hpre Hrest].
    apply Forall_cons in Hrest as [Hg' _].
    apply Forall_app. split; [exact Hpre | by constructor].
Qed.

(** C9.  GET /book/:id, GET /books and GET /books/frequently-borrowed are
    registered without isAuthenticated; POST /book/add,
    PUT /book/update/:id, DELETE /book/delete/:id and
    GET /book/borrowed/:id have it in their chains.  On a route without it
    the controller is the first and only handler to run, whatever
    isAuthenticated would answer; on a route with it, when isAuthenticated
    answers every request itself, no controller runs. *)
Theorem C9_public_and_protected_routes :
  map (fun rt => (verb rt, pattern rt, bool_decide (isAuthenticated ∈ handlers rt)))
      bookRouter =
    [ (POST, "/book/add"%string, true);
      (PUT, "/book/update/:id"%string, true);
      (DELETE, "/book/delete/:id"%string, true);
      (GET, "/book/:id"%string, false);
      (GET, "/book/borrowed/:id"%string, true);
      (GET, "/books"%string, false);
      (GET, "/books/frequently-borrowed"%string, false) ]
  ∧ (∀ (Req Res : Type) (behaviour : handler -> Req -> step Req Res) rt rq,
       rt ∈ bookRouter →
       isAuthenticated ∉ handlers rt →
       ∃ c, is_controller c = true ∧ (run behaviour (handlers rt) rq).1 = [c])
  ∧ (∀ (Req Res : Type) (behaviour : handler -> Req -> step Req Res) rt rq,
       rt ∈ bookRouter →
       isAuthenticated ∈ handlers rt →
       (∀ rq', ∃ rs, behaviour isAuthenticated rq' = Send rs) →
       Forall (fun h => is_controller h = false) (run behaviour (handlers rt) rq).1).
Proof.
  split; [reflexivity |]. split.
  - intros Req Res behaviour rt rq Hrt Hno.
    each_route Hrt; simpl in *;
      try (exfalso; apply Hno; rewrite !elem_of_cons; tauto).
    + exists getBook. split; [reflexivity|]. by destruct (behaviour getBook rq).
    + exists getBooks. split; [reflexivity|]. by destruct (behaviour getBooks rq).
    + exists getFrequentlyBorrowedBooks. split; [reflexivity|].
      by destruct (behaviour getFrequentlyBorrowedBooks rq).
  - intros Req Res behaviour rt rq Hrt Hin Hauth.
    each_route Hrt; simpl in *;
      try (exfalso; revert Hin; rewrite !elem_of_cons, elem_of_nil;
           intros Hin; intuition discriminate).
    + destruct (behaviour addBookValidation rq) as [rq1|rs1]; simpl.
      * destruct (Hauth rq1) as [rs ->]. simpl. repeat constructor.
      * repeat constructor.
    + destruct (behaviour updateBookValidation rq) as [rq1|rs1]; simpl.
      * destruct (Hauth rq1) as [rs ->]. simpl. repeat constructor.
      * repeat constructor.
    + destruct (Hauth rq) as [rs ->]. simpl. repeat constructor.
    + destruct (Hauth rq) as [rs ->]. simpl. repeat constructor.
Qed.

End BookRouterClaims.

Section SchemaClaims.
Import Prisma LibrarySchema PrismaFacts.

Lemma schema_holds d c : db_ok schema d → c ∈ constraints schema → holds d c.
Proof. apply db_ok_holds. Qed.

(** C7.  The [@@index] declarations of the schema are exactly four, each
    with an explicit name: the composite index on (title, author) of Book,
    and the single-column indexes on userId, bookId and borrowedAt of
    Transactions; User declares none. *)
Theorem C7_declared_indexes :
  declared_indexes schema =
    [ ("Book"%string,
       {| index_fields := ["title"; "author"]; index_name := Some "idx_book_search" |});
      ("Transactions"%string,
       {| index_fields := ["userId"]; index_name := Some "idx_transactions_user" |});
      ("Transactions"%string,
       {| index_fields := ["bookId"]; index_name := Some "idx_transactions_book" |});
      ("Transactions"%string,
       {| index_fields := ["borrowedAt"];
          index_name := Some "idx_transactions_borrowed_at" |}) ]
  ∧ Forall (fun ix => is_Some (index_name ix.2)) (declared_indexes schema)
  ∧ indexes User = [].
Proof.
  split; [reflexivity|]. split; [|reflexivity].
  repeat constructor; by eexists.
Qed.

(** C2.  Transactions declares the foreign keys userId to User.id and
    bookId to Book.id and three indexes, on userId, bookId and borrowedAt;
    its only unique column is its id.  Nothing in the schema keeps a book
    to one open transaction: storing a user, a book and then two
    transactions for that book, neither with a return time, succeeds, and
    the stored data satisfies every constraint of the schema while the
    book has two open transactions. *)
Theorem C2_schema_allows_two_open_transactions :
  foreign_keys schema "Transactions"
    = [("userId", "User", "id"); ("bookId", "Book", "id")]%string
  ∧ index_fields <$> indexes Transactions = [["userId"]; ["bookId"]; ["borrowedAt"]]%string
  ∧ unique_columns schema "Transactions" = ["id"%string]
  ∧ ∃ d t1 t2,
      double_borrow = Some d
      ∧ db_ok schema d
      ∧ table d "Transactions" = [t1; t2]
      ∧ is_open t1 ∧ is_open t2
      ∧ col t1 "bookId" = col t2 "bookId"
      ∧ ¬ one_open_per_book d.
Proof.
  split; [reflexivity|]. split; [reflexivity|]. split; [reflexivity|].
  assert (E : is_Some double_borrow) by (apply is_Some_compute; vm_compute; reflexivity).
  destruct E as [d E].
  set (t1 := list_to_map [("id", VInt 1); ("userId", VInt 1); ("bookId", VInt 1);
                          ("borrowedAt", VDateTime 30); ("returnedAt", VNull)]%string
             : gmap string value).
  set (t2 := list_to_map [("id", VInt 2); ("userId", VInt 1); ("bookId", VInt 1);
                          ("borrowedAt", VDateTime 40); ("returnedAt", VNull)]%string
             : gmap string value).
  assert (Hfacts : from_option (fun d =>
            bool_decide (db_ok schema d ∧ table d "Transactions" = [t1; t2])) false
            double_borrow = true) by (vm_compute; reflexivity).
  rewrite E in Hfacts. simpl in Hfacts.
  apply bool_decide_eq_true in Hfacts as [Hok Ht].
  exists d, t1, t2.
  split; [exact E|]. split; [exact Hok|]. split; [exact Ht|].
  split; [reflexivity|]. split; [reflexivity|]. split; [reflexivity|].
  intros Hone. specialize (Hone 0 1 t1 t2). rewrite Ht in Hone.
  discriminate Hone; reflexivity.
Qed.

Lemma find_Book : find_model schema "Book" = Some Book.
Proof. reflexivity. Qed.

Lemma find_User : find_model schema "User" = Some User.
Proof. reflexivity. Qed.

Lemma Book_columns_NoDup : NoDup (name <$> columns schema Book).
Proof. compute_done. Qed.

Lemma User_columns_NoDup : NoDup (name <$> columns schema User).
Proof. compute_done. Qed.

(** The row a [create] appended is the last of its table: an older row
    cannot share a non-null value of a unique column with it. *)
Lemma created_row_fresh m f data tm d r d' b :
  Unique m f ∈ constraints schema →
  create schema m data tm d = Some (r, d') →
  b ∈ table d m →
  col r f ≠ VNull →
  col b f ≠ col r f.
Proof.
  intros Hu Hc Hb Hnn Heq.
  apply create_inv in Hc as (md & _ & _ & Hok' & Ht & _).
  apply list_elem_of_lookup_1 in Hb as [k Hk].
  pose proof (lookup_lt_Some _ _ _ Hk) as Hlt.
  assert (Hk' : table d' m !! k = Some b) by (rewrite Ht; by apply lookup_app_l_Some).
  assert (Hr : table d' m !! length (table d m) = Some r).
  { rewrite Ht, lookup_app_r by lia. by rewrite Nat.sub_diag. }
  assert (k = length (table d m)); [|lia].
  eapply (unique_rows d' m f k _ b r); eauto.
  - by apply schema_holds.
  - by rewrite Heq.
Qed.

(** C3.  Book declares isbn as an optional string with a unique
    constraint and no not-null constraint.  In stored data that satisfies
    the schema, two different Book rows never share a non-null ISBN, and a
    create whose ISBN is that of a stored book is refused; rows without an
    ISBN may coexist. *)
Theorem C3_isbn_optional_and_unique :
  find_field Book "isbn"
    = Some {| name := "isbn"; type := TString; modif := Optional;
              attributes := [At_unique] |}
  ∧ Unique "Book" "isbn" ∈ constraints schema
  ∧ (NotNull "Book" "isbn" ∉ constraints schema)
  ∧ (∀ d i j b1 b2,
       db_ok schema d →
       table d "Book" !! i = Some b1 → table d "Book" !! j = Some b2 →
       i ≠ j → col b1 "isbn" ≠ VNull →
       col b1 "isbn" ≠ col b2 "isbn")
  ∧ (∀ d data tm b,
       b ∈ table d "Book" → col b "isbn" ≠ VNull →
       data !! "isbn" = Some (col b "isbn") →
       create schema "Book" data tm d = None)
  ∧ (∃ d b1 b2,
       two_plain_books = Some d ∧ db_ok schema d ∧ table d "Book" = [b1; b2]
       ∧ col b1 "isbn" = VNull ∧ col b2 "isbn" = VNull).
Proof.
  assert (Hu : Unique "Book" "isbn" ∈ constraints schema) by compute_done.
  split; [reflexivity|]. split; [exact Hu|]. split; [compute_done|].
  split; [|split].
  - intros d i j b1 b2 Hok Hi Hj Hne Hnn Heq. apply Hne.
    eapply (unique_rows d "Book" "isbn"); eauto. by apply schema_holds.
  - intros d data tm b Hb Hnn Hdata.
    destruct (create schema "Book" data tm d) as [[r d']|] eqn:Hc; [|reflexivity].
    exfalso.
    assert (Hr : r !! "isbn" = Some (col b "isbn")).
    { rewrite <- Hdata.
      etransitivity;
        [ apply (created_column schema "Book" data tm d r d' Book
                   {| name := "isbn"; type := TString; modif := Optional;
                      attributes := [At_unique] |} Hc find_Book Book_columns_NoDup);
          compute_done |].
      unfold fill_field; simpl. by rewrite Hdata. }
    assert (Hcol : col r "isbn" = col b "isbn") by (unfold col at 1; by rewrite Hr).
    eapply (created_row_fresh "Book" "isbn"); eauto. by rewrite Hcol.
  - assert (E : is_Some two_plain_books) by (apply is_Some_compute; vm_compute; reflexivity).
    destruct E as [d E].
    assert (Hok : from_option (fun d => bool_decide (db_ok schema d)) false
                    two_plain_books = true) by (vm_compute; reflexivity).
    assert (Hlen : from_option (fun d =>
                     bool_decide (Forall (fun b => col b "isbn" = VNull) (table d "Book")
                                  ∧ length (table d "Book") = 2)) false
                     two_plain_books = true) by (vm_compute; reflexivity).
    rewrite E in Hok, Hlen. simpl in Hok, Hlen.
    apply bool_decide_eq_true in Hok. apply bool_decide_eq_true in Hlen as [Hnull Hlen].
    destruct (table d "Book") as [|b1 [|b2 [|? ?]]] eqn:Ht; try discriminate Hlen.
    exists d, b1, b2. apply Forall_cons in Hnull as [H1 Hnull].
    apply Forall_cons in Hnull as [H2 _].
    split; [exact E|]. split; [exact Hok|]. split; [exact Ht|]. by split.
Qed.

(** Two books stored with different ISBNs: an instance of the uniqueness
    part of C3. *)
Lemma C3_isbn_unique_witness :
  ∃ d b1 b2,
    two_isbn_books = Some d ∧ table d "Book" = [b1; b2]
    ∧ col b1 "isbn" ≠ col b2 "isbn".
Proof.
  assert (E : is_Some two_isbn_books) by (apply is_Some_compute; vm_compute; reflexivity).
  destruct E as [d E].
  assert (Hfacts : from_option (fun d =>
            bool_decide (db_ok schema d
                         ∧ Forall (fun b => col b "isbn" ≠ VNull) (table d "Book")
                         ∧ length (table d "Book") = 2)) false
            two_isbn_books = true) by (vm_compute; reflexivity).
  rewrite E in Hfacts. simpl in Hfacts.
  apply bool_decide_eq_true in Hfacts as (Hok & Hnn & Hlen).
  destruct (table d "Book") as [|b1 [|b2 [|? ?]]] eqn:Ht; try discriminate Hlen.
  exists d, b1, b2. split; [exact E|]. split; [exact Ht|].
  apply Forall_cons in Hnn as [H1 _].
  destruct C3_isbn_optional_and_unique as (_ & _ & _ & Huniq & _).
  apply (Huniq d 0 1 b1 b2 Hok); [by rewrite Ht | by rewrite Ht | lia | exact H1].
Defined.

(** C4.  User declares a required unique email, an optional unique
    username, optional phoneNumber, accessToken and refreshToken, and a
    role of the enum UserRole (ADMIN, USER) with default USER.  In stored
    data that satisfies the schema, two different User rows have different
    emails, and different usernames unless one of them is null; every role
    is ADMIN or USER; a user created without a role has role USER. *)
Theorem C4_user_model :
  map (fun f => (name f, type f, modif f, attributes f))
      (filter (fun f => name f ∈ ["email"; "username"; "phoneNumber"; "accessToken";
                                   "refreshToken"; "role"]%string) (fields User))
    = [ ("email", TString, Required, [At_unique]);
        ("username", TString, Optional, [At_unique]);
        ("phoneNumber", TString, Optional, []);
        ("accessToken", TString, Optional, []);
        ("refreshToken", TString, Optional, []);
        ("role", TNamed "UserRole", Required,
           [At_default (literal (VEnum "USER"))]) ]%string
  ∧ enums schema = [ {| enum_name := "UserRole"; enum_values := ["ADMIN"; "USER"] |} ]
  ∧ (∀ d i j u1 u2,
       db_ok schema d →
       table d "User" !! i = Some u1 → table d "User" !! j = Some u2 →
       i ≠ j →
       col u1 "email" ≠ col u2 "email"
       ∧ (col u1 "username" ≠ VNull → col u2 "username" ≠ VNull →
          col u1 "username" ≠ col u2 "username"))
  ∧ (∀ d u,
       db_ok schema d → u ∈ table d "User" →
       col u "role" = VEnum "ADMIN" ∨ col u "role" = VEnum "USER")
  ∧ (∀ d data tm r d',
       create schema "User" data tm d = Some (r, d') →
       data !! "role" = None →
       col r "role" = VEnum "USER").
Proof.
  split; [reflexivity|]. split; [reflexivity|]. split; [|split].
  - intros d i j u1 u2 Hok Hi Hj Hne. split.
    + intros Heq. apply Hne.
      eapply (unique_rows d "User" "email"); eauto.
      * apply schema_holds; [done | compute_done].
      * eapply (not_null_rows d "User" "email").
        -- apply schema_holds; [done | compute_done].
        -- by eapply list_elem_of_lookup_2.
    + intros Hnn _ Heq. apply Hne.
      eapply (unique_rows d "User" "username"); eauto.
      apply schema_holds; [done | compute_done].
  - intros d u Hok Hu.
    assert (Hty : has_type (CEnum ["ADMIN"; "USER"]) (col u "role") = true).
    { eapply (typed_rows d "User" "role"); [|exact Hu].
      apply schema_holds; [done | compute_done]. }
    assert (Hnn : col u "role" ≠ VNull).
    { eapply (not_null_rows d "User" "role"); [|exact Hu].
      apply schema_holds; [done | compute_done]. }
    destruct (col u "role") as [| | | | |s]; try discriminate Hty; [done|].
    simpl in Hty. apply bool_decide_eq_true in Hty.
    rewrite !elem_of_cons, elem_of_nil in Hty.
    destruct Hty as [->|[->|[]]]; [by left | by right].
  - intros d data tm r d' Hc Hrole.
    assert (Hr : r !! "role" = Some (VEnum "USER")).
    { etransitivity;
        [ apply (created_column schema "User" data tm d r d' User
                   {| name := "role"; type := TNamed "UserRole"; modif := Required;
                      attributes := [At_default (literal (VEnum "USER"))] |}
                   Hc find_User User_columns_NoDup);
          compute_done |].
      unfold fill_field; simpl. by rewrite Hrole. }
    unfold col. by rewrite Hr.
Qed.

(** Two users stored one after the other: an instance of the uniqueness
    part of C4. *)
Lemma C4_user_model_witness :
  ∃ d u1 u2,
    two_users = Some d ∧ table d "User" = [u1; u2]
    ∧ col u1 "email" ≠ col u2 "email"
    ∧ col u1 "role" = VEnum "USER".
Proof.
  assert (E : is_Some two_users) by (apply is_Some_compute; vm_compute; reflexivity).
  destruct E as [d E].
  assert (Hfacts : from_option (fun d =>
            bool_decide (db_ok schema d
                         ∧ Forall (fun u => col u "role" = VEnum "USER") (table d "User")
                         ∧ length (table d "User") = 2)) false
            two_users = true) by (vm_compute; reflexivity).
  rewrite E in Hfacts. simpl in Hfacts.
  apply bool_decide_eq_true in Hfacts as (Hok & Hrole & Hlen).
  destruct (table d "User") as [|u1 [|u2 [|? ?]]] eqn:Ht; try discriminate Hlen.
  exists d, u1, u2. split; [exact E|]. split; [exact Ht|].
  apply Forall_cons in Hrole as [H1 _].
  destruct C4_user_model as (_ & _ & Huniq & _).
  split; [|exact H1].
  apply (Huniq d 0 1 u1 u2 Hok); [by rewrite Ht | by rewrite Ht | lia].
Defined.

Local Ltac book_column Hc fld :=
  etransitivity;
  [ apply (created_column schema "Book" _ _ _ _ _ Book fld Hc find_Book Book_columns_NoDup);
    compute_done
  | unfold fill_field; simpl ].

(** C10.  A Book created without an id, an availability flag, a borrow
    counter and a creation time gets isAvailable = true, borrowedCount = 0,
    the next value of the id sequence (which then moves on by one) and the
    time of the call.  When the
    data before the call satisfied the schema, no transaction refers to the
    new book, so it was never borrowed and it satisfies the availability
    invariant (available iff no open transaction) as soon as it is stored. *)
Theorem C10_new_book_defaults d data tm r d' :
  db_ok schema d →
  create schema "Book" data tm d = Some (r, d') →
  data !! "id" = None →
  data !! "isAvailable" = None →
  data !! "borrowedCount" = None →
  data !! "createdAt" = None →
  col r "isAvailable" = VBoolean true
  ∧ col r "borrowedCount" = VInt 0
  ∧ col r "id" = VInt (next_id d "Book")
  ∧ next_id d' "Book" = (next_id d "Book" + 1)%Z
  ∧ col r "createdAt" = VDateTime tm
  ∧ table d' "Book" = table d "Book" ++ [r]
  ∧ (∀ t, t ∈ table d' "Transactions" → col t "bookId" ≠ col r "id")
  ∧ open_transactions d' (col r "id") = []
  ∧ availability_invariant d' r.
Proof.
  intros Hok Hc Hid Hav Hbc Hca.
  assert (Havail : col r "isAvailable" = VBoolean true).
  { unfold col. replace (r !! "isAvailable") with (Some (VBoolean true)); [done|].
    symmetry.
    book_column Hc {| name := "isAvailable"; type := TBoolean; modif := Required;
                      attributes := [At_default (literal (VBoolean true))] |}.
    by rewrite Hav. }
  assert (Hcount : col r "borrowedCount" = VInt 0).
  { unfold col. replace (r !! "borrowedCount") with (Some (VInt 0)); [done|].
    symmetry.
    book_column Hc {| name := "borrowedCount"; type := TInt; modif := Required;
                      attributes := [At_default (literal (VInt 0))] |}.
    by rewrite Hbc. }
  assert (Hident : col r "id" = VInt (next_id d "Book")).
  { unfold col. replace (r !! "id") with (Some (VInt (next_id d "Book"))); [done|].
    symmetry.
    book_column Hc {| name := "id"; type := TInt; modif := Required;
                      attributes := [At_id; At_default autoincrement] |}.
    by rewrite Hid. }
  assert (Hcreated : col r "createdAt" = VDateTime tm).
  { unfold col. replace (r !! "createdAt") with (Some (VDateTime tm)); [done|].
    symmetry.
    book_column Hc {| name := "createdAt"; type := TDateTime; modif := Required;
                      attributes := [At_default now] |}.
    by rewrite Hca. }
  assert (Hnext : next_id d' "Book" = (next_id d "Book" + 1)%Z).
  { apply (create_sequence schema "Book" data tm d r d' Book Hc find_Book).
    apply existsb_exists.
    exists {| name := "id"; type := TInt; modif := Required;
              attributes := [At_id; At_default autoincrement] |}.
    split; [apply list_elem_of_In; compute_done|].
    unfold takes_sequence; simpl. by rewrite Hid. }
  pose proof (create_inv _ _ _ _ _ _ _ Hc) as (md & _ & _ & Hok' & Ht & Hother).
  assert (Hnone : ∀ t, t ∈ table d' "Transactions" → col t "bookId" ≠ col r "id").
  { intros t Hin Heq. rewrite (Hother "Transactions") in Hin by discriminate.
    destruct (foreign_rows d "Transactions" "bookId" "Book" "id" t) as (b & Hb & Hbid).
    - apply schema_holds; [done | compute_done].
    - exact Hin.
    - rewrite Heq, Hident. discriminate.
    - apply (created_row_fresh "Book" "id" data tm d r d' b); try done.
      + compute_done.
      + rewrite Hident. discriminate.
      + by rewrite Hbid. }
  assert (Hopen : open_transactions d' (col r "id") = []).
  { unfold open_transactions. apply filter_none. intros t Hin [Hbid _].
    by apply (Hnone t). }
  do 8 (split; [done|]).
  unfold availability_invariant. split; intros _; [exact Hopen | exact Havail].
Qed.

(** The first book stored in an empty database: an instance of C10. *)
Lemma C10_new_book_defaults_witness :
  ∃ r d',
    create schema "Book" a_book 20 empty_db = Some (r, d')
    ∧ col r "isAvailable" = VBoolean true
    ∧ col r "borrowedCount" = VInt 0
    ∧ col r "id" = VInt 1
    ∧ availability_invariant d' r.
Proof.
  assert (E : is_Some (create schema "Book" a_book 20 empty_db))
    by (apply is_Some_compute; vm_compute; reflexivity).
  destruct E as [[r d'] E].
  exists r, d'. split; [exact E|].
  destruct (C10_new_book_defaults empty_db a_book 20 r d')
    as (Hav & Hbc & Hid & _ & _ & _ & _ & _ & Hinv);
    [compute_done | exact E | reflexivity | reflexivity | reflexivity | reflexivity |].
  split; [exact Hav|]. split; [exact Hbc|]. split; [exact Hid|]. exact Hinv.
Defined.

End SchemaClaims.

(* ===================================================================== *)
(** * Part XI: further properties of the registration rules               *)
(* ===================================================================== *)

Section RegistrationFurther.
Import ExpressValidator AuthValidations AuthValidationsFacts Declared.

Lemma forall_one {A : Type} (P : A -> Prop) (v : A) :
  (∀ x, x ∈ [v] → P x) ↔ P v.
Proof.
  split.
  - intros H. apply H, list_elem_of_here.
  - intros HP x Hx. apply list_elem_of_singleton in Hx. by subst.
Qed.

Lemma long_enough_iff (s : jsstring) :
  negb ((8 <=? validator_length s)%nat && true) = false ↔ 8 <= validator_length s.
Proof. rewrite andb_true_r, negb_false_iff. apply Nat.leb_le. Qed.

Lemma length_nonzero_iff (s : jsstring) : (length s =? 0)%nat = false ↔ s ≠ [].
Proof.
  rewrite <- not_true_iff_false, length_zero_iff. reflexivity.
Qed.

Lemma test_true_iff r P s :
  (∀ c, class_matches r c = true ↔ P c) →
  negb (test r s) = false ↔ has_char P s.
Proof.
  intros HP. rewrite negb_false_iff, test_has_char. by apply has_char_iff.
Qed.

(** What a value has to satisfy to pass the five password checks. *)
Definition passes_password_checks (s : jsstring) : Prop :=
  8 <= validator_length s
  ∧ has_char is_lowercase s ∧ has_char is_uppercase s
  ∧ has_char is_digit s ∧ has_char is_special s.

Lemma accepts_general (isEmail_pred : jsstring -> bool) (b : gmap string jsvalue) :
  validationResult (registrationValidation isEmail_pred) b = []
  ↔ (∀ x, x ∈ values (b !! "email") → isEmail_pred (toString x) = true)
    ∧ (∀ x, x ∈ values (b !! "password") → passes_password_checks (toString x))
    ∧ (∀ x, x ∈ values (b !! "fullName") → toString x ≠ [])
    ∧ (∀ x, x ∈ values (b !! "username") → toString x ≠ []).
Proof.
  rewrite registration_errors, !app_nil, !report_nil.
  unfold passes_password_checks. split.
  - intros (He & Hl & Hlo & Hup & Hdi & Hsp & Hfn & Hun).
    split; [intros x Hx; by apply negb_false_iff, He|].
    split; [|split; intros x Hx; apply length_nonzero_iff; auto].
    intros x Hx.
    split; [by apply long_enough_iff, Hl|].
    split; [by apply (test_true_iff _ _ _ lowercase_matches), Hlo|].
    split; [by apply (test_true_iff _ _ _ uppercase_matches), Hup|].
    split; [by apply (test_true_iff _ _ _ digit_matches), Hdi|].
    by apply (test_true_iff _ _ _ special_matches), Hsp.
  - intros (He & Hpw & Hfn & Hun).
    split; [intros x Hx; by apply negb_false_iff, He|].
    split; [intros x Hx; apply long_enough_iff; by apply (Hpw x Hx)|].
    split; [intros x Hx; apply (test_true_iff _ _ _ lowercase_matches);
            by apply (Hpw x Hx)|].
    split; [intros x Hx; apply (test_true_iff _ _ _ uppercase_matches);
            by apply (Hpw x Hx)|].
    split; [intros x Hx; apply (test_true_iff _ _ _ digit_matches);
            by apply (Hpw x Hx)|].
    split; [intros x Hx; apply (test_true_iff _ _ _ special_matches);
            by apply (Hpw x Hx)|].
    split; intros x Hx; apply length_nonzero_iff; auto.
Qed.

(** X1.  A registration body passes the rules, with no error recorded,
    exactly when every value of its email satisfies the email predicate,
    every value of its password has at least 8 characters (as validator.js
    counts them) with a lowercase letter, an uppercase letter, a digit and
    a listed special character, and every value of its full name and of its
    username is not empty; the values of a field are the elements of an
    array and anything else as it is.  For a body whose four fields are
    strings, this is the same condition on the four strings; a body that
    lacks the password, the full name or the username does not pass. *)
Theorem X1_registration_accepts_iff
    (isEmail_pred : jsstring -> bool) (b : gmap string jsvalue) :
  (validationResult (registrationValidation isEmail_pred) b = []
   ↔ (∀ x, x ∈ values (b !! "email") → isEmail_pred (toString x) = true)
     ∧ (∀ x, x ∈ values (b !! "password") →
          8 <= validator_length (toString x)
          ∧ has_char is_lowercase (toString x)
          ∧ has_char is_uppercase (toString x)
          ∧ has_char is_digit (toString x)
          ∧ has_char is_special (toString x))
     ∧ (∀ x, x ∈ values (b !! "fullName") → toString x ≠ [])
     ∧ (∀ x, x ∈ values (b !! "username") → toString x ≠ []))
  ∧ (∀ em pw fn un,
       b !! "email" = Some (JString em) →
       b !! "password" = Some (JString pw) →
       b !! "fullName" = Some (JString fn) →
       b !! "username" = Some (JString un) →
       (validationResult (registrationValidation isEmail_pred) b = []
        ↔ isEmail_pred em = true
          ∧ 8 <= validator_length pw
          ∧ has_char is_lowercase pw
          ∧ has_char is_uppercase pw
          ∧ has_char is_digit pw
          ∧ has_char is_special pw
          ∧ fn ≠ [] ∧ un ≠ []))
  ∧ (b !! "password" = None ∨ b !! "fullName" = None ∨ b !! "username" = None →
     validationResult (registrationValidation isEmail_pred) b ≠ []).
Proof.
  split; [exact (accepts_general isEmail_pred b)|]. split.
  - intros em pw fn un Hem Hpw Hfn Hun.
    rewrite accepts_general, Hem, Hpw, Hfn, Hun.
    change (values (Some (JString em))) with [Some (JString em)].
    change (values (Some (JString pw))) with [Some (JString pw)].
    change (values (Some (JString fn))) with [Some (JString fn)].
    change (values (Some (JString un))) with [Some (JString un)].
    rewrite !forall_one. unfold passes_password_checks.
    change (toString (Some (JString em))) with em.
    change (toString (Some (JString pw))) with pw.
    change (toString (Some (JString fn))) with fn.
    change (toString (Some (JString un))) with un.
    tauto.
  - intros Hmissing Hnil. apply accepts_general in Hnil as (_ & Hpw & Hfn & Hun).
    destruct Hmissing as [Hnone|[Hnone|Hnone]]; rewrite Hnone in *.
    + destruct (Hpw None) as [Hlen _]; [apply list_elem_of_here|].
      vm_compute in Hlen. lia.
    + by apply (Hfn None); [apply list_elem_of_here|].
    + by apply (Hun None); [apply list_elem_of_here|].
Qed.

Local Ltac differ H :=
  match type of H with
  | ?a = ?b =>
      let Hne := fresh "Hne" in
      assert (Hne : String.eqb a b = false) by (vm_compute; reflexivity);
      apply String.eqb_neq in Hne; exact (Hne H)
  end.

(** Every recorded error, with its field and the check that failed. *)
Lemma registration_error_cases (isEmail_pred : jsstring -> bool)
    (b : gmap string jsvalue) e :
  e ∈ validationResult (registrationValidation isEmail_pred) b →
  value e ∈ values (b !! path e)
  ∧ ((path e = "email"%string ∧ isEmail_pred (toString (value e)) = false)
     ∨ path e = "password"%string
     ∨ (path e = "fullName"%string ∧ toString (value e) = [])
     ∨ (path e = "username"%string ∧ toString (value e) = [])).
Proof.
  rewrite registration_errors, !elem_of_app, !elem_of_report.
  intros H. repeat (destruct H as [H|H]); destruct H as (x & Hx & Hbad & ->); simpl;
    (split; [exact Hx|]).
  - left. split; [reflexivity|]. by apply negb_true_iff.
  - right; by left.
  - right; by left.
  - right; by left.
  - right; by left.
  - right; by left.
  - right; right; left. split; [reflexivity|]. by apply length_zero_iff.
  - right; right; right. split; [reflexivity|]. by apply length_zero_iff.
Qed.

Lemma exists_strings (P : jsstring -> Prop) (l : list jsstring) :
  (∃ x, x ∈ values (Some (JArray (JString <$> l))) ∧ P (toString x))
  ↔ ∃ s, s ∈ l ∧ P s.
Proof.
  rewrite values_strings. split.
  - intros (x & Hx & HP). apply list_elem_of_fmap in Hx as (s & -> & Hs).
    exists s. by split.
  - intros (s & Hs & HP). exists (Some (JString s)). split; [|exact HP].
    apply list_elem_of_fmap. by exists s.
Qed.

(** X2.  The email rule.  "Invalid email format" is recorded for the email
    field: for a missing email, exactly when the email predicate rejects
    the empty string; for an email given as a string, exactly when the
    predicate rejects it; for an array of strings, exactly when it rejects
    one of them.  When the predicate accepts every value of the field, no
    error of the email field is recorded. *)
Theorem X2_email_rule (isEmail_pred : jsstring -> bool) (b : gmap string jsvalue) :
  let errs := validationResult (registrationValidation isEmail_pred) b in
  let reported := ("email"%string, "Invalid email format"%string) ∈ site <$> errs in
  (b !! "email" = None → (reported ↔ isEmail_pred [] = false))
  ∧ (∀ s, b !! "email" = Some (JString s) → (reported ↔ isEmail_pred s = false))
  ∧ (∀ l, b !! "email" = Some (JArray (JString <$> l)) →
       (reported ↔ ∃ s, s ∈ l ∧ isEmail_pred s = false))
  ∧ ((∀ x, x ∈ values (b !! "email") → isEmail_pred (toString x) = true) →
     Forall (fun e => path e ≠ "email"%string) errs).
Proof.
  intros errs reported. subst errs reported.
  destruct (reported_iff isEmail_pred b) as (Hem & _). cbv zeta in Hem.
  assert (Hem' : ("email"%string, msg_email)
                   ∈ site <$> validationResult (registrationValidation isEmail_pred) b
                 ↔ ∃ x, x ∈ values (b !! "email") ∧ isEmail_pred (toString x) = false).
  { etransitivity; [exact Hem|]. split; intros (x & Hx & Hbad); exists x;
      (split; [exact Hx|]); by apply negb_true_iff. }
  split; [|split; [|split]].
  - intros Hnone. rewrite Hnone in Hem'.
    change (values None) with [@None jsvalue] in Hem'. by rewrite exists_one in Hem'.
  - intros s Hs. rewrite Hs in Hem'.
    change (values (Some (JString s))) with [Some (JString s)] in Hem'.
    by rewrite exists_one in Hem'.
  - intros l Hl. rewrite Hl in Hem'.
    by rewrite (exists_strings (fun s => isEmail_pred s = false)) in Hem'.
  - intros Hok. apply Forall_forall. intros e He Hp.
    destruct (registration_error_cases _ _ _ He) as [Hv Hcase].
    destruct Hcase as [[_ Hbad]|[Hq|[[Hq _]|[Hq _]]]];
      [| rewrite Hp in Hq; discriminate Hq ..].
    rewrite Hp in Hv. rewrite (Hok _ Hv) in Hbad. discriminate Hbad.
Qed.

(** X3.  The full-name rule.  "Full name is required" is recorded when the
    field is missing; for a full name given as a string, exactly when the
    string is empty, so that blank text passes (the value is not trimmed);
    for an array of strings, exactly when one of them is empty. *)
Theorem X3_fullName_rule (isEmail_pred : jsstring -> bool) (b : gmap string jsvalue) :
  let errs := validationResult (registrationValidation isEmail_pred) b in
  let reported := ("fullName"%string, "Full name is required"%string) ∈ site <$> errs in
  (b !! "fullName" = None → reported)
  ∧ (∀ s, b !! "fullName" = Some (JString s) → (reported ↔ s = []))
  ∧ (∀ n, b !! "fullName" = Some (JString (replicate (S n) 32%N)) → ¬ reported)
  ∧ (∀ l, b !! "fullName" = Some (JArray (JString <$> l)) → (reported ↔ [] ∈ l)).
Proof.
  intros errs reported. subst errs reported.
  destruct (reported_iff isEmail_pred b) as (_ & _ & _ & _ & _ & _ & Hfn & _).
  cbv zeta in Hfn.
  assert (Hfn' : ("fullName"%string, msg_fullName)
                   ∈ site <$> validationResult (registrationValidation isEmail_pred) b
                 ↔ ∃ x, x ∈ values (b !! "fullName") ∧ toString x = []).
  { etransitivity; [exact Hfn|]. split; intros (x & Hx & Hbad); exists x;
      (split; [exact Hx|]); by apply length_zero_iff. }
  assert (Hstring : ∀ s, b !! "fullName" = Some (JString s) →
            (("fullName"%string, msg_fullName)
               ∈ site <$> validationResult (registrationValidation isEmail_pred) b
             ↔ s = [])).
  { intros s Hs. rewrite Hs in Hfn'.
    change (values (Some (JString s))) with [Some (JString s)] in Hfn'.
    by rewrite exists_one in Hfn'. }
  split; [|split; [|split]].
  - intros Hnone. rewrite Hnone in Hfn'.
    change (values None) with [@None jsvalue] in Hfn'. rewrite exists_one in Hfn'.
    by apply Hfn'.
  - exact Hstring.
  - intros n Hn Hrep. apply (Hstring _ Hn) in Hrep. discriminate Hrep.
  - intros l Hl. rewrite Hl in Hfn'.
    rewrite (exists_strings (fun s => s = [])) in Hfn'.
    etransitivity; [exact Hfn'|]. split.
    + by intros (s & Hs & ->).
    + intros Hin. by exists [].
Qed.

(** X4.  The errors come in the order of the rules, validator by
    validator: their (field, message) pairs form a subsequence of the
    eight declared pairs, each repeated once for every value of its field.
    When none of the four fields is an array, they form a subsequence of
    the eight declared pairs themselves, so at most eight errors are
    recorded. *)
Theorem X4_errors_in_declared_order
    (isEmail_pred : jsstring -> bool) (b : gmap string jsvalue) :
  let errs := validationResult (registrationValidation isEmail_pred) b in
  declared_errors (registrationValidation isEmail_pred) =
    [ ("email", "Invalid email format");
      ("password", "Password should be at least 8 characters long");
      ("password", "Password should contain at least one lowercase letter");
      ("password", "Password should contain at least one uppercase letter");
      ("password", "Password should contain at least one digit");
      ("password", "Password should contain at least one special character");
      ("fullName", "Full name is required");
      ("username", "Company name is required") ]%string
  ∧ site <$> errs
      `sublist_of` flat_map (fun '(f, m) => replicate (length (values (b !! f))) (f, m))
                            (declared_errors (registrationValidation isEmail_pred))
  ∧ ((∀ f l, f ∈ validated_fields (registrationValidation isEmail_pred) →
             b !! f ≠ Some (JArray l)) →
     site <$> errs `sublist_of` declared_errors (registrationValidation isEmail_pred)
     ∧ length errs <= 8).
Proof.
  intros errs. subst errs.
  assert (Hsub : site <$> validationResult (registrationValidation isEmail_pred) b
            `sublist_of` flat_map (fun '(f, m) => replicate (length (values (b !! f))) (f, m))
                           (declared_errors (registrationValidation isEmail_pred))).
  { rewrite registration_errors, !fmap_app.
    change (flat_map _ (declared_errors (registrationValidation isEmail_pred)))
      with (replicate (length (values (b !! "email"))) ("email"%string, msg_email)
            ++ replicate (length (values (b !! "password"))) ("password"%string, msg_length)
            ++ replicate (length (values (b !! "password"))) ("password"%string, msg_lower)
            ++ replicate (length (values (b !! "password"))) ("password"%string, msg_upper)
            ++ replicate (length (values (b !! "password"))) ("password"%string, msg_digit)
            ++ replicate (length (values (b !! "password"))) ("password"%string, msg_special)
            ++ replicate (length (values (b !! "fullName"))) ("fullName"%string, msg_fullName)
            ++ replicate (length (values (b !! "username"))) ("username"%string, msg_username)
            ++ []).
    rewrite app_nil_r.
    repeat (apply sublist_app; [apply report_sites_sublist|]).
    apply report_sites_sublist. }
  split; [reflexivity|]. split; [exact Hsub|].
  intros Hscalar.
  assert (Hone : ∀ f, f ∈ validated_fields (registrationValidation isEmail_pred) →
            length (values (b !! f)) = 1).
  { intros f Hf. rewrite values_not_array; [reflexivity|].
    intros l. by apply Hscalar. }
  assert (Hsub' : site <$> validationResult (registrationValidation isEmail_pred) b
            `sublist_of` declared_errors (registrationValidation isEmail_pred)).
  { etransitivity; [exact Hsub|]. simpl.
    rewrite !(Hone "email"), !(Hone "password"), !(Hone "fullName"), !(Hone "username")
      by compute_done.
    reflexivity. }
  split; [exact Hsub'|].
  apply sublist_length in Hsub'. by rewrite length_fmap in Hsub'.
Qed.


Lemma filter_report_other (f f' m : string) bad v :
  filter (fun e => path e ≠ f) (report f' m bad v)
  = if decide (f' = f) then [] else report f' m bad v.
Proof.
  unfold report. induction (values v) as [|x xs IH].
  - by destruct (decide (f' = f)).
  - cbn [flat_map]. rewrite filter_app, IH.
    destruct (bad (toString x)).
    + destruct (decide (f' = f)) as [Heq|Hne].
      * rewrite filter_cons_False; [reflexivity|]. simpl. tauto.
      * rewrite filter_cons_True; [reflexivity|]. exact Hne.
    + by destruct (decide (f' = f)).
Qed.

(** X6.  A field the rules do not name is not validated: setting it, or
    removing it, leaves the recorded errors as they are (role, phone
    number and any other extra field of the body pass unchecked). *)
Theorem X6_other_fields_are_ignored
    (isEmail_pred : jsstring -> bool) (b : gmap string jsvalue) (f : string) (v : jsvalue) :
  f ∉ validated_fields (registrationValidation isEmail_pred) →
  validationResult (registrationValidation isEmail_pred) (<[f := v]> b)
    = validationResult (registrationValidation isEmail_pred) b
  ∧ validationResult (registrationValidation isEmail_pred) (delete f b)
    = validationResult (registrationValidation isEmail_pred) b.
Proof.
  intros Hf.
  assert (Hne : "email"%string ≠ f ∧ "password"%string ≠ f
                ∧ "fullName"%string ≠ f ∧ "username"%string ≠ f).
  { repeat split; intros <-; apply Hf; compute_done. }
  destruct Hne as (He & Hp & Hn & Hu).
  rewrite !registration_errors.
  rewrite !lookup_insert_ne, !lookup_delete_ne by congruence. done.
Qed.

Lemma X6_other_fields_are_ignored_witness :
  validationResult (registrationValidation (fun _ => true))
                   (<["role" := JString (js "ADMIN")]> (<["password" := JString (js "abc")]> ∅))
  = validationResult (registrationValidation (fun _ => true))
                     (<["password" := JString (js "abc")]> ∅)
  ∧ validationResult (registrationValidation (fun _ => true))
                     (delete "role" (<["password" := JString (js "abc")]> ∅))
    = validationResult (registrationValidation (fun _ => true))
                       (<["password" := JString (js "abc")]> ∅).
Proof.
  refine (X6_other_fields_are_ignored (fun _ => true)
            (<["password" := JString (js "abc")]> ∅) "role" (JString (js "ADMIN")) _).
  compute_done.
Defined.

(** X7.  The fields are validated independently: giving one field another
    value changes nothing in the errors recorded for the other fields. *)
Theorem X7_fields_validated_independently
    (isEmail_pred : jsstring -> bool) (b : gmap string jsvalue) (f : string) (v : jsvalue) :
  filter (fun e => path e ≠ f)
         (validationResult (registrationValidation isEmail_pred) (<[f := v]> b))
  = filter (fun e => path e ≠ f)
           (validationResult (registrationValidation isEmail_pred) b).
Proof.
  rewrite !registration_errors, !filter_app, !filter_report_other.
  destruct (decide ("email"%string = f)) as [<-|He];
    [by rewrite !lookup_insert_ne by discriminate|].
  destruct (decide ("password"%string = f)) as [<-|Hp];
    [by rewrite !lookup_insert_ne by discriminate|].
  destruct (decide ("fullName"%string = f)) as [<-|Hn];
    [by rewrite !lookup_insert_ne by discriminate|].
  destruct (decide ("username"%string = f)) as [<-|Hu];
    [by rewrite !lookup_insert_ne by discriminate|].
  by rewrite !lookup_insert_ne by congruence.
Qed.

Lemma Forall_report_path (f m : string) bad v :
  Forall (fun e => path e ≠ "password"%string) (report f m bad v)
  ↔ f ≠ "password"%string ∨ ∀ x, x ∈ values v → bad (toString x) = false.
Proof.
  rewrite Forall_forall. split.
  - intros Hall. destruct (decide (f = "password"%string)) as [->|Hne]; [|by left].
    right. intros x Hx. destruct (bad (toString x)) eqn:Hbad; [|reflexivity].
    exfalso. apply (Hall {| path := "password"; msg := m; value := x |}); [|reflexivity].
    apply elem_of_report. eauto.
  - intros Hor e He Hp. apply elem_of_report in He as (x & Hx & Hbad & ->).
    simpl in Hp. destruct Hor as [Hne|Hall]; [done|].
    rewrite (Hall x Hx) in Hbad. discriminate Hbad.
Qed.

Lemma password_passes_iff (isEmail_pred : jsstring -> bool) (b : gmap string jsvalue) :
  password_passes isEmail_pred b
  ↔ ∀ x, x ∈ values (b !! "password") →
      (8 <=? validator_length (toString x))%nat = true
      ∧ test lowercase_class (toString x) = true
      ∧ test uppercase_class (toString x) = true
      ∧ test digit_class (toString x) = true
      ∧ test special_class (toString x) = true.
Proof.
  unfold password_passes.
  rewrite registration_errors, !Forall_app, !Forall_report_path. split.
  - intros (_ & [H1|H1] & [H2|H2] & [H3|H3] & [H4|H4] & [H5|H5] & _); try done.
    intros x Hx.
    specialize (H1 x Hx). specialize (H2 x Hx). specialize (H3 x Hx).
    specialize (H4 x Hx). specialize (H5 x Hx).
    rewrite andb_true_r in H1. rewrite negb_false_iff in H1, H2, H3, H4, H5. done.
  - intros Hall.
    split; [by left|].
    split; [right; intros x Hx; destruct (Hall x Hx) as (-> & _); reflexivity|].
    split; [right; intros x Hx; destruct (Hall x Hx) as (_ & -> & _); reflexivity|].
    split; [right; intros x Hx; destruct (Hall x Hx) as (_ & _ & -> & _); reflexivity|].
    split; [right; intros x Hx; destruct (Hall x Hx) as (_ & _ & _ & -> & _); reflexivity|].
    split; [right; intros x Hx; destruct (Hall x Hx) as (_ & _ & _ & _ & ->); reflexivity|].
    split; by left.
Qed.

(** X8.  The password rule has no upper bound and only asks for the
    presence of characters: a password that passes still passes with any
    text put before it and after it. *)
Theorem X8_accepted_password_can_be_extended
    (isEmail_pred : jsstring -> bool) (b : gmap string jsvalue) (pw pre post : jsstring) :
  b !! "password" = Some (JString pw) →
  password_passes isEmail_pred b →
  password_passes isEmail_pred (<["password" := JString (pre ++ pw ++ post)]> b).
Proof.
  intros Hpw. rewrite !password_passes_iff, lookup_insert_eq, Hpw.
  change (values (Some (JString pw))) with [Some (JString pw)].
  change (values (Some (JString (pre ++ pw ++ post))))
    with [Some (JString (pre ++ pw ++ post))].
  rewrite !forall_one.
  change (toString (Some (JString pw))) with pw.
  change (toString (Some (JString (pre ++ pw ++ post)))) with (pre ++ pw ++ post).
  intros (Hlen & Hlo & Hup & Hdi & Hsp).
  split.
  - apply Nat.leb_le. apply Nat.leb_le in Hlen.
    etransitivity; [exact Hlen | apply validator_length_extend].
  - repeat split; by apply test_extend.
Qed.

Lemma X8_accepted_password_can_be_extended_witness :
  password_passes (fun _ => true)
    (<["password" := JString (js "xx" ++ js "Abcdef1?" ++ js "-- and more")]>
       (<["password" := JString (js "Abcdef1?")]> ∅)).
Proof.
  apply (X8_accepted_password_can_be_extended (fun _ => true)
           (<["password" := JString (js "Abcdef1?")]> ∅)
           (js "Abcdef1?") (js "xx") (js "-- and more")).
  - apply lookup_insert_eq.
  - apply password_passes_iff. rewrite lookup_insert_eq.
    change (values (Some (JString (js "Abcdef1?")))) with [Some (JString (js "Abcdef1?"))].
    apply forall_one. vm_compute. repeat split.
Defined.

(** X21.  A body with none of the four fields gets every declared error,
    in the declared order: each missing field is validated as the empty
    string, which fails all five password checks and both required-field
    checks, and the email check whenever the email predicate rejects the
    empty string. *)
Theorem X21_empty_body_gets_every_error
    (isEmail_pred : jsstring -> bool) (b : gmap string jsvalue) :
  isEmail_pred [] = false →
  (∀ f, f ∈ validated_fields (registrationValidation isEmail_pred) → b !! f = None) →
  site <$> validationResult (registrationValidation isEmail_pred) b
  = declared_errors (registrationValidation isEmail_pred).
Proof.
  intros Hp Hnone.
  rewrite registration_errors.
  rewrite (Hnone "email"), (Hnone "password"), (Hnone "fullName"), (Hnone "username")
    by compute_done.
  unfold report. simpl. rewrite Hp. reflexivity.
Qed.

Lemma X21_empty_body_gets_every_error_witness :
  site <$> validationResult
             (registrationValidation (fun s => negb (length s =? 0)%nat)) ∅
  = declared_errors (registrationValidation (fun s => negb (length s =? 0)%nat)).
Proof.
  apply X21_empty_body_gets_every_error; [reflexivity|].
  intros f _. apply lookup_empty.
Defined.

End RegistrationFurther.

(* ===================================================================== *)
(** * Part XII: further properties of the book routes                     *)
(* ===================================================================== *)

Section BookRouterFurther.
Import Express BookRoutes BookRoutesFacts Declared.

Local Ltac each_route H :=
  rewrite bookRouter_routes in H;
  repeat (apply elem_of_cons in H as [->|H]); [..| by apply elem_of_nil in H].

(** When every guard calls [next()], the whole chain runs, in order, and
    the controller decides the response on the request the guards made. *)
Lemma run_all_next {Req Res : Type} (behaviour : handler -> Req -> step Req Res)
    (f : handler -> Req -> Req) guards c rq :
  (∀ g r, g ∈ guards → behaviour g r = Next (f g r)) →
  run behaviour (guards ++ [c]) rq
  = (guards ++ [c],
     match behaviour c (foldl (fun r g => f g r) rq guards) with
     | Send rs => Some rs
     | Next _ => None
     end).
Proof.
  revert rq. induction guards as [|g gs IH]; intros rq Hnext; simpl.
  - by destruct (behaviour c rq).
  - rewrite Hnext by apply list_elem_of_here.
    rewrite IH; [reflexivity|]. intros g' r Hg'. apply Hnext. by apply list_elem_of_further.
Qed.

(** X9.  Authentication is decided before validation errors are reported:
    on every route, when isAuthenticated answers the request itself,
    handleValidationErrors does not run (nor does any controller), so an
    unauthenticated request with an invalid body gets the answer of
    isAuthenticated. *)
Theorem X9_authentication_precedes_validation_report
    (Req Res : Type) (behaviour : handler -> Req -> step Req Res) rt rq :
  rt ∈ bookRouter →
  (∀ rq', ∃ rs, behaviour isAuthenticated rq' = Send rs) →
  (handleValidationErrors ∉ (run behaviour (handlers rt) rq).1)
  ∧ (isAuthenticated ∈ handlers rt →
     Forall (fun h => imported_from h ≠ Controllers) (run behaviour (handlers rt) rq).1).
Proof.
  intros Hrt Hauth.
  each_route Hrt; simpl.
  - destruct (behaviour addBookValidation rq) as [rq1|rs1]; simpl.
    + destruct (Hauth rq1) as [rs ->]. simpl.
      split; [rewrite !elem_of_cons, elem_of_nil; intuition discriminate|].
      intros _. repeat constructor; discriminate.
    + split; [rewrite !elem_of_cons, elem_of_nil; intuition discriminate|].
      intros _. repeat constructor; discriminate.
  - destruct (behaviour updateBookValidation rq) as [rq1|rs1]; simpl.
    + destruct (Hauth rq1) as [rs ->]. simpl.
      split; [rewrite !elem_of_cons, elem_of_nil; intuition discriminate|].
      intros _. repeat constructor; discriminate.
    + split; [rewrite !elem_of_cons, elem_of_nil; intuition discriminate|].
      intros _. repeat constructor; discriminate.
  - destruct (Hauth rq) as [rs ->]. simpl.
    split; [rewrite !elem_of_cons, elem_of_nil; intuition discriminate|].
    intros _. repeat constructor; discriminate.
  - split; [|rewrite !elem_of_cons, elem_of_nil; intuition discriminate].
    destruct (behaviour getBook rq); simpl;
      rewrite !elem_of_cons, elem_of_nil; intuition discriminate.
  - destruct (Hauth rq) as [rs ->]. simpl.
    split; [rewrite !elem_of_cons, elem_of_nil; intuition discriminate|].
    intros _. repeat constructor; discriminate.
  - split; [|rewrite !elem_of_cons, elem_of_nil; intuition discriminate].
    destruct (behaviour getBooks rq); simpl;
      rewrite !elem_of_cons, elem_of_nil; intuition discriminate.
  - split; [|rewrite !elem_of_cons, elem_of_nil; intuition discriminate].
    destruct (behaviour getFrequentlyBorrowedBooks rq); simpl;
      rewrite !elem_of_cons, elem_of_nil; intuition discriminate.
Qed.

Lemma X9_authentication_precedes_validation_report_witness :
  (handleValidationErrors
     ∉ (run rejecting_auth
          [addBookValidation; isAuthenticated; handleValidationErrors; addBook] 0).1)
  ∧ (isAuthenticated ∈ [addBookValidation; isAuthenticated; handleValidationErrors; addBook] →
     Forall (fun h => imported_from h ≠ Controllers)
       (run rejecting_auth
          [addBookValidation; isAuthenticated; handleValidationErrors; addBook] 0).1).
Proof.
  refine (X9_authentication_precedes_validation_report nat nat rejecting_auth
            {| verb := POST; pattern := "/book/add";
               handlers := [addBookValidation; isAuthenticated;
                            handleValidationErrors; addBook] |} 0 _ _).
  - rewrite bookRouter_routes. apply list_elem_of_here.
  - intros rq'. by exists 401.
Defined.

(** X10.  When the validation and middleware handlers all call next, every
    handler of the route runs, in the declared order, the controller last
    and once; the controller works on the request as the handlers before
    it left it, and the response is the controller's. *)
Theorem X10_controller_runs_after_all_guards
    (Req Res : Type) (behaviour : handler -> Req -> step Req Res)
    (f : handler -> Req -> Req) rt rq :
  rt ∈ bookRouter →
  (∀ g r, is_controller g = false → behaviour g r = Next (f g r)) →
  ∃ guards c,
    handlers rt = guards ++ [c]
    ∧ is_controller c = true
    ∧ (run behaviour (handlers rt) rq).1 = handlers rt
    ∧ (run behaviour (handlers rt) rq).2
      = match behaviour c (foldl (fun r g => f g r) rq guards) with
        | Send rs => Some rs
        | Next _ => None
        end.
Proof.
  intros Hrt Hnext.
  destruct (route_guards_then_controller rt Hrt) as (guards & c & Heq & Hguards & Hc).
  exists guards, c. split; [exact Heq|]. split; [exact Hc|].
  rewrite Heq, (run_all_next behaviour f); [by split|].
  intros g r Hg. apply Hnext. rewrite Forall_forall in Hguards. by apply Hguards.
Qed.

Lemma X10_controller_runs_after_all_guards_witness :
  ∃ guards c,
    [addBookValidation; isAuthenticated; handleValidationErrors; addBook] = guards ++ [c]
    ∧ is_controller c = true
    ∧ (run counting [addBookValidation; isAuthenticated; handleValidationErrors; addBook] 0).1
      = [addBookValidation; isAuthenticated; handleValidationErrors; addBook]
    ∧ (run counting [addBookValidation; isAuthenticated; handleValidationErrors; addBook] 0).2
      = match counting c (foldl (fun r g => (fun _ r => S r) g r) 0 guards) with
        | Send rs => Some rs
        | Next _ => None
        end.
Proof.
  refine (X10_controller_runs_after_all_guards nat nat counting (fun _ r => S r)
            {| verb := POST; pattern := "/book/add";
               handlers := [addBookValidation; isAuthenticated;
                            handleValidationErrors; addBook] |} 0 _ _).
  - rewrite bookRouter_routes. apply list_elem_of_here.
  - intros g r Hg. unfold counting. by rewrite Hg.
Defined.

(** X11.  Shape of the chains.  A route that is not a GET always has
    isAuthenticated.  A route has validation rules exactly when it has
    handleValidationErrors, and then its chain is: the rules,
    isAuthenticated, handleValidationErrors, the controller; every other
    chain is the controller alone or isAuthenticated and the controller. *)
Theorem X11_shape_of_the_chains :
  (∀ rt, rt ∈ bookRouter → verb rt ≠ GET → isAuthenticated ∈ handlers rt)
  ∧ (∀ rt, rt ∈ bookRouter →
       (∃ v, v ∈ handlers rt ∧ imported_from v = Validations)
       ↔ handleValidationErrors ∈ handlers rt)
  ∧ (∀ rt, rt ∈ bookRouter →
       (∃ v c, handlers rt = [v; isAuthenticated; handleValidationErrors; c]
               ∧ imported_from v = Validations ∧ imported_from c = Controllers)
       ∨ (∃ c, (handlers rt = [c] ∨ handlers rt = [isAuthenticated; c])
               ∧ imported_from c = Controllers)).
Proof.
  split; [|split].
  - intros rt Hrt Hverb. each_route Hrt; simpl in *; try congruence;
      rewrite !elem_of_cons; tauto.
  - intros rt Hrt. each_route Hrt; simpl;
      (split;
       [ intros (v & Hv & Hval); revert Hv; rewrite !elem_of_cons, elem_of_nil;
         intros Hv; try tauto;
         repeat (destruct Hv as [->|Hv]); try discriminate Hval; try tauto
       | rewrite !elem_of_cons, elem_of_nil; intros Hg;
         first [ by (exists addBookValidation; split; [apply list_elem_of_here|])
               | by (exists updateBookValidation; split; [apply list_elem_of_here|])
               | exfalso; intuition discriminate ] ]).
  - intros rt Hrt. each_route Hrt; simpl.
    + left. by exists addBookValidation, addBook.
    + left. by exists updateBookValidation, updateBookDetails.
    + right. exists deleteBookById. split; [by right | reflexivity].
    + right. exists getBook. split; [by left | reflexivity].
    + right. exists getAllBooksBorrowedByUser. split; [by right | reflexivity].
    + right. exists getBooks. split; [by left | reflexivity].
    + right. exists getFrequentlyBorrowedBooks. split; [by left | reflexivity].
Qed.

End BookRouterFurther.

(* ===================================================================== *)
(** * Part XIII: further properties of the stored data                    *)
(* ===================================================================== *)

Section SchemaFurther.
Import Prisma LibrarySchema PrismaFacts Declared.

Lemma find_Transactions : find_model schema "Transactions" = Some Transactions.
Proof. reflexivity. Qed.

Lemma Transactions_columns_NoDup : NoDup (name <$> columns schema Transactions).
Proof. compute_done. Qed.

(** A column with nothing to fill it in makes the row fail. *)
Lemma build_row_None seq tm data cols f :
  f ∈ cols → fill_field seq tm data f = None → build_row seq tm data cols = None.
Proof.
  induction cols as [|f0 rest IH]; intros Hf Hfill.
  - by apply elem_of_nil in Hf.
  - simpl. apply elem_of_cons in Hf as [->|Hf].
    + by rewrite Hfill.
    + rewrite (IH Hf Hfill). by destruct (fill_field seq tm data f0).
Qed.

Lemma create_None_missing S m md data tm d f :
  find_model S m = Some md →
  f ∈ mandatory_inputs S md →
  data !! f = None →
  create S m data tm d = None.
Proof.
  intros Hmd Hf Hdata. unfold create. rewrite Hmd.
  apply list_elem_of_fmap in Hf as (fd & -> & Hfd).
  apply list_elem_of_filter in Hfd as ((Hdef & Hupd & Hopt) & Hcol).
  rewrite (build_row_None _ _ _ _ fd Hcol); [reflexivity|].
  unfold fill_field. rewrite Hdata, Hdef, Hupd.
  by destruct (modif fd).
Qed.

(** What a stored transaction says of its user and its book is what the
    caller supplied. *)
Lemma created_transaction_refs d data tm t d' :
  create schema "Transactions" data tm d = Some (t, d') →
  data !! "userId" = Some (col t "userId") ∧ data !! "bookId" = Some (col t "bookId").
Proof.
  intros Hc.
  destruct (data !! "userId") as [u|] eqn:Hu;
    [| by rewrite (create_None_missing schema "Transactions" Transactions data tm d "userId"
                     find_Transactions ltac:(compute_done) Hu) in Hc ].
  destruct (data !! "bookId") as [k|] eqn:Hk;
    [| by rewrite (create_None_missing schema "Transactions" Transactions data tm d "bookId"
                     find_Transactions ltac:(compute_done) Hk) in Hc ].
  assert (Hut : t !! "userId" = Some u).
  { etransitivity;
      [ apply (created_column schema "Transactions" data tm d t d' Transactions
                 {| name := "userId"; type := TInt; modif := Required; attributes := [] |}
                 Hc find_Transactions Transactions_columns_NoDup); compute_done |].
    unfold fill_field; simpl. by rewrite Hu. }
  assert (Hkt : t !! "bookId" = Some k).
  { etransitivity;
      [ apply (created_column schema "Transactions" data tm d t d' Transactions
                 {| name := "bookId"; type := TInt; modif := Required; attributes := [] |}
                 Hc find_Transactions Transactions_columns_NoDup); compute_done |].
    unfold fill_field; simpl. by rewrite Hk. }
  unfold col. by rewrite Hut, Hkt.
Qed.

(** X12.  Referential integrity: in stored data that satisfies the
    schema, every transaction refers to a stored user and to a stored
    book. *)
Theorem X12_transactions_refer_to_stored_rows d t :
  db_ok schema d →
  t ∈ table d "Transactions" →
  (∃ u, u ∈ table d "User" ∧ col u "id" = col t "userId")
  ∧ (∃ b, b ∈ table d "Book" ∧ col b "id" = col t "bookId").
Proof.
  intros Hok Ht. split.
  - apply (foreign_rows d "Transactions" "userId" "User" "id" t); [|exact Ht|].
    + apply schema_holds; [done | compute_done].
    + apply (not_null_rows d "Transactions" "userId"); [|exact Ht].
      apply schema_holds; [done | compute_done].
  - apply (foreign_rows d "Transactions" "bookId" "Book" "id" t); [|exact Ht|].
    + apply schema_holds; [done | compute_done].
    + apply (not_null_rows d "Transactions" "bookId"); [|exact Ht].
      apply schema_holds; [done | compute_done].
Qed.

Lemma X12_transactions_refer_to_stored_rows_witness :
  ∃ d t,
    double_borrow = Some d ∧ t ∈ table d "Transactions"
    ∧ (∃ u, u ∈ table d "User" ∧ col u "id" = col t "userId")
    ∧ (∃ b, b ∈ table d "Book" ∧ col b "id" = col t "bookId").
Proof.
  assert (E : is_Some double_borrow) by (apply is_Some_compute; vm_compute; reflexivity).
  destruct E as [d E].
  assert (Hfacts : from_option (fun d =>
            bool_decide (db_ok schema d ∧ length (table d "Transactions") = 2)) false
            double_borrow = true) by (vm_compute; reflexivity).
  rewrite E in Hfacts. simpl in Hfacts.
  apply bool_decide_eq_true in Hfacts as [Hok Hlen].
  destruct (table d "Transactions") as [|t rest] eqn:Ht; [discriminate Hlen|].
  exists d, t. split; [exact E|].
  assert (Hin : t ∈ table d "Transactions") by (rewrite Ht; apply list_elem_of_here).
  split; [exact Hin|].
  exact (X12_transactions_refer_to_stored_rows d t Hok Hin).
Defined.

Local Ltac transaction_column Hc fld :=
  etransitivity;
  [ apply (created_column schema "Transactions" _ _ _ _ _ Transactions fld Hc
             find_Transactions Transactions_columns_NoDup);
    compute_done
  | unfold fill_field; simpl ].

Local Ltac user_column Hc fld :=
  etransitivity;
  [ apply (created_column schema "User" _ _ _ _ _ User fld Hc find_User User_columns_NoDup);
    compute_done
  | unfold fill_field; simpl ].

(** X13.  Every borrowing starts open: a transaction created without an
    id, a borrow time and a return time gets the next id of its sequence,
    the time of the call as borrowedAt and a null returnedAt; it is stored
    last, among the open transactions of its book. *)
Theorem X13_new_transaction_is_open d data tm t d' :
  create schema "Transactions" data tm d = Some (t, d') →
  data !! "id" = None →
  data !! "borrowedAt" = None →
  data !! "returnedAt" = None →
  is_open t
  ∧ col t "borrowedAt" = VDateTime tm
  ∧ col t "id" = VInt (next_id d "Transactions")
  ∧ table d' "Transactions" = table d "Transactions" ++ [t]
  ∧ t ∈ open_transactions d' (col t "bookId").
Proof.
  intros Hc Hid Hba Hra.
  assert (Hopen : is_open t).
  { unfold is_open, col. replace (t !! "returnedAt") with (Some VNull); [done|].
    symmetry.
    transaction_column Hc {| name := "returnedAt"; type := TDateTime; modif := Optional;
                             attributes := [] |}.
    by rewrite Hra. }
  assert (Hborrowed : col t "borrowedAt" = VDateTime tm).
  { unfold col. replace (t !! "borrowedAt") with (Some (VDateTime tm)); [done|].
    symmetry.
    transaction_column Hc {| name := "borrowedAt"; type := TDateTime; modif := Required;
                             attributes := [At_default now] |}.
    by rewrite Hba. }
  assert (Hident : col t "id" = VInt (next_id d "Transactions")).
  { unfold col. replace (t !! "id") with (Some (VInt (next_id d "Transactions"))); [done|].
    symmetry.
    transaction_column Hc {| name := "id"; type := TInt; modif := Required;
                             attributes := [At_id; At_default autoincrement] |}.
    by rewrite Hid. }
  pose proof (create_inv _ _ _ _ _ _ _ Hc) as (md & _ & _ & _ & Ht & _).
  do 4 (split; [done|]).
  unfold open_transactions. apply list_elem_of_filter. split; [by split|].
  rewrite Ht, elem_of_app, list_elem_of_singleton. by right.
Qed.

Lemma X13_new_transaction_is_open_witness :
  ∃ t d', first_borrow = Some (t, d') ∧ is_open t ∧ col t "id" = VInt 1.
Proof.
  assert (E : is_Some first_borrow) by (apply is_Some_compute; vm_compute; reflexivity).
  destruct E as [[t d'] E]. exists t, d'. split; [exact E|].
  unfold first_borrow in E.
  destruct one_user_one_book as [d|] eqn:Ed; [|discriminate E]. simpl in E.
  assert (Hseq : from_option (fun d => bool_decide (next_id d "Transactions" = 1%Z)) false
                   one_user_one_book = true) by (vm_compute; reflexivity).
  rewrite Ed in Hseq. simpl in Hseq. apply bool_decide_eq_true in Hseq.
  destruct (X13_new_transaction_is_open d (borrowing 1 1) 30 t d' E)
    as (Hopen & _ & Hid & _); [reflexivity | reflexivity | reflexivity |].
  split; [exact Hopen|]. by rewrite Hid, Hseq.
Defined.

(** X14.  A transaction cannot be stored for a book or for a user that is
    not stored: when the supplied bookId is the id of no Book row, or the
    supplied userId the id of no User row, the create is refused. *)
Theorem X14_transaction_needs_stored_book_and_user d data tm :
  (∀ b, b ∈ table d "Book" → data !! "bookId" ≠ Some (col b "id"))
  ∨ (∀ u, u ∈ table d "User" → data !! "userId" ≠ Some (col u "id")) →
  create schema "Transactions" data tm d = None.
Proof.
  intros Hmissing.
  destruct (create schema "Transactions" data tm d) as [[t d']|] eqn:Hc; [|reflexivity].
  exfalso.
  destruct (created_transaction_refs d data tm t d' Hc) as [Hu Hb].
  pose proof (create_inv _ _ _ _ _ _ _ Hc) as (md & _ & _ & Hok' & Ht & Hother).
  assert (Hin : t ∈ table d' "Transactions").
  { rewrite Ht, elem_of_app, list_elem_of_singleton. by right. }
  assert (Hrefs :
    (∃ u, u ∈ table d' "User" ∧ col u "id" = col t "userId")
    ∧ (∃ b, b ∈ table d' "Book" ∧ col b "id" = col t "bookId")).
  { split.
    - apply (foreign_rows d' "Transactions" "userId" "User" "id" t); [|exact Hin|].
      + apply schema_holds; [done | compute_done].
      + apply (not_null_rows d' "Transactions" "userId"); [|exact Hin].
        apply schema_holds; [done | compute_done].
    - apply (foreign_rows d' "Transactions" "bookId" "Book" "id" t); [|exact Hin|].
      + apply schema_holds; [done | compute_done].
      + apply (not_null_rows d' "Transactions" "bookId"); [|exact Hin].
        apply schema_holds; [done | compute_done]. }
  destruct Hrefs as [(u & Huin & Hueq) (b & Hbin & Hbeq)].
  rewrite (Hother "User") in Huin by discriminate.
  rewrite (Hother "Book") in Hbin by discriminate.
  destruct Hmissing as [Hno|Hno].
  - apply (Hno b Hbin). by rewrite Hbeq.
  - apply (Hno u Huin). by rewrite Hueq.
Qed.

Lemma X14_transaction_needs_stored_book_and_user_witness :
  create schema "Transactions" (borrowing 1 1) 30 empty_db = None.
Proof.
  apply X14_transaction_needs_stored_book_and_user.
  left. intros b Hb. unfold table, empty_db in Hb. simpl in Hb.
  rewrite lookup_empty in Hb. simpl in Hb. by apply elem_of_nil in Hb.
Defined.

(** X15.  The values a caller has to supply: title, author, genre and
    publishedYear for a Book; fullName, email and password for a User;
    userId and bookId for a Transactions row.  A create that leaves one of
    them out is refused, whatever else it supplies. *)
Theorem X15_mandatory_inputs :
  mandatory_inputs schema Book = ["title"; "author"; "genre"; "publishedYear"]%string
  ∧ mandatory_inputs schema User = ["fullName"; "email"; "password"]%string
  ∧ mandatory_inputs schema Transactions = ["userId"; "bookId"]%string
  ∧ (∀ m md f data tm d,
       find_model schema m = Some md →
       f ∈ mandatory_inputs schema md →
       data !! f = None →
       create schema m data tm d = None).
Proof.
  split; [reflexivity|]. split; [reflexivity|]. split; [reflexivity|].
  intros m md f data tm d. apply create_None_missing.
Qed.

Lemma X15_mandatory_inputs_witness :
  create schema "Book" (delete "title" a_book) 20 empty_db = None.
Proof.
  destruct X15_mandatory_inputs as (_ & _ & _ & Hmiss).
  apply (Hmiss "Book" Book "title"); [reflexivity | compute_done | apply lookup_delete_eq].
Defined.

(** X16.  A user cannot be stored with the email of a stored user, nor
    with the username of a stored user that has one: the create is
    refused. *)
Theorem X16_duplicate_user_is_refused d data tm u :
  db_ok schema d →
  u ∈ table d "User" →
  data !! "email" = Some (col u "email")
  ∨ (col u "username" ≠ VNull ∧ data !! "username" = Some (col u "username")) →
  create schema "User" data tm d = None.
Proof.
  intros Hok Hu Hdup.
  destruct (create schema "User" data tm d) as [[r d']|] eqn:Hc; [|reflexivity].
  exfalso. destruct Hdup as [Hdata|[Hnn Hdata]].
  - assert (Hr : r !! "email" = Some (col u "email")).
    { rewrite <- Hdata.
      user_column Hc {| name := "email"; type := TString; modif := Required;
                        attributes := [At_unique] |}.
      by rewrite Hdata. }
    assert (Hcol : col r "email" = col u "email") by (unfold col at 1; by rewrite Hr).
    assert (Hemail : col u "email" ≠ VNull).
    { apply (not_null_rows d "User" "email"); [|exact Hu].
      apply schema_holds; [done | compute_done]. }
    apply (created_row_fresh "User" "email" data tm d r d' u); try done.
    + compute_done.
    + by rewrite Hcol.
  - assert (Hr : r !! "username" = Some (col u "username")).
    { rewrite <- Hdata.
      user_column Hc {| name := "username"; type := TString; modif := Optional;
                        attributes := [At_unique] |}.
      by rewrite Hdata. }
    assert (Hcol : col r "username" = col u "username") by (unfold col at 1; by rewrite Hr).
    apply (created_row_fresh "User" "username" data tm d r d' u); try done.
    + compute_done.
    + by rewrite Hcol.
Qed.

Lemma X16_duplicate_user_is_refused_witness :
  ∃ d, one_user_one_book = Some d ∧ create schema "User" a_user 50 d = None.
Proof.
  assert (E : is_Some one_user_one_book) by (apply is_Some_compute; vm_compute; reflexivity).
  destruct E as [d E]. exists d. split; [exact E|].
  assert (Hfacts : from_option (fun d =>
            bool_decide (db_ok schema d
                         ∧ Forall (fun u => a_user !! "email" = Some (col u "email"))
                                  (table d "User")
                         ∧ length (table d "User") = 1)) false
            one_user_one_book = true) by (vm_compute; reflexivity).
  rewrite E in Hfacts. simpl in Hfacts.
  apply bool_decide_eq_true in Hfacts as (Hok & Hsame & Hlen).
  destruct (table d "User") as [|u rest] eqn:Ht; [discriminate Hlen|].
  apply Forall_cons in Hsame as [Hsame _].
  apply (X16_duplicate_user_is_refused d a_user 50 u Hok).
  - rewrite Ht. apply list_elem_of_here.
  - by left.
Defined.

(** X17.  Primary keys: in stored data that satisfies the schema, the id
    of every Book, User and Transactions row is an integer, and two
    different rows of a table have different ids. *)
Theorem X17_ids_are_integer_keys d m i j r1 r2 :
  db_ok schema d →
  m ∈ ["Book"; "User"; "Transactions"]%string →
  table d m !! i = Some r1 →
  table d m !! j = Some r2 →
  i ≠ j →
  col r1 "id" ≠ col r2 "id" ∧ ∃ z, col r1 "id" = VInt z.
Proof.
  intros Hok Hm Hi Hj Hne.
  assert (Hcs : Unique m "id" ∈ constraints schema
                ∧ NotNull m "id" ∈ constraints schema
                ∧ HasType m "id" CInt ∈ constraints schema).
  { rewrite !elem_of_cons, elem_of_nil in Hm.
    destruct Hm as [->|[->|[->|[]]]]; repeat split; compute_done. }
  destruct Hcs as (Hu & Hn & Ht).
  assert (Hin : r1 ∈ table d m) by (by eapply list_elem_of_lookup_2).
  assert (Hnn : col r1 "id" ≠ VNull).
  { apply (not_null_rows d m "id"); [by apply schema_holds | exact Hin]. }
  split.
  - intros Heq. apply Hne.
    eapply (unique_rows d m "id"); eauto. by apply schema_holds.
  - pose proof (typed_rows d m "id" CInt r1 (schema_holds d _ Hok Ht) Hin) as Hty.
    destruct (col r1 "id") as [|z| | | |]; try discriminate Hty; [done|].
    by exists z.
Qed.

Lemma X17_ids_are_integer_keys_witness :
  ∃ d u1 u2,
    two_users = Some d ∧ table d "User" = [u1; u2]
    ∧ col u1 "id" ≠ col u2 "id" ∧ ∃ z, col u1 "id" = VInt z.
Proof.
  assert (E : is_Some two_users) by (apply is_Some_compute; vm_compute; reflexivity).
  destruct E as [d E].
  assert (Hfacts : from_option (fun d =>
            bool_decide (db_ok schema d ∧ length (table d "User") = 2)) false
            two_users = true) by (vm_compute; reflexivity).
  rewrite E in Hfacts. simpl in Hfacts.
  apply bool_decide_eq_true in Hfacts as (Hok & Hlen).
  destruct (table d "User") as [|u1 [|u2 [|? ?]]] eqn:Ht; try discriminate Hlen.
  exists d, u1, u2. split; [exact E|]. split; [exact Ht|].
  apply (X17_ids_are_integer_keys d "User" 0 1 u1 u2 Hok);
    [compute_done | by rewrite Ht | by rewrite Ht | lia].
Defined.

(** X18.  A new user has no username, phone number or stored tokens
    unless the caller supplies them: each of these columns is null when
    the data leaves it out; createdAt and updatedAt then hold the time of
    the call and id the next value of the sequence. *)
Theorem X18_new_user_columns d data tm r d' :
  create schema "User" data tm d = Some (r, d') →
  (∀ f, f ∈ ["username"; "phoneNumber"; "accessToken"; "refreshToken"]%string →
        data !! f = None → col r f = VNull)
  ∧ (∀ f, f ∈ ["createdAt"; "updatedAt"]%string →
          data !! f = None → col r f = VDateTime tm)
  ∧ (data !! "id" = None → col r "id" = VInt (next_id d "User")).
Proof.
  intros Hc. split; [|split].
  - intros f Hf Hdata. rewrite !elem_of_cons, elem_of_nil in Hf.
    destruct Hf as [->|[->|[->|[->|[]]]]]; unfold col.
    + replace (r !! "username") with (Some VNull); [done|]. symmetry.
      user_column Hc {| name := "username"; type := TString; modif := Optional;
                        attributes := [At_unique] |}.
      by rewrite Hdata.
    + replace (r !! "phoneNumber") with (Some VNull); [done|]. symmetry.
      user_column Hc {| name := "phoneNumber"; type := TString; modif := Optional;
                        attributes := [] |}.
      by rewrite Hdata.
    + replace (r !! "accessToken") with (Some VNull); [done|]. symmetry.
      user_column Hc {| name := "accessToken"; type := TString; modif := Optional;
                        attributes := [] |}.
      by rewrite Hdata.
    + replace (r !! "refreshToken") with (Some VNull); [done|]. symmetry.
      user_column Hc {| name := "refreshToken"; type := TString; modif := Optional;
                        attributes := [] |}.
      by rewrite Hdata.
  - intros f Hf Hdata. rewrite !elem_of_cons, elem_of_nil in Hf.
    destruct Hf as [->|[->|[]]]; unfold col.
    + replace (r !! "createdAt") with (Some (VDateTime tm)); [done|]. symmetry.
      user_column Hc {| name := "createdAt"; type := TDateTime; modif := Required;
                        attributes := [At_default now] |}.
      by rewrite Hdata.
    + replace (r !! "updatedAt") with (Some (VDateTime tm)); [done|]. symmetry.
      user_column Hc {| name := "updatedAt"; type := TDateTime; modif := Required;
                        attributes := [At_updatedAt] |}.
      by rewrite Hdata.
  - intros Hdata. unfold col.
    replace (r !! "id") with (Some (VInt (next_id d "User"))); [done|]. symmetry.
    user_column Hc {| name := "id"; type := TInt; modif := Required;
                      attributes := [At_id; At_default autoincrement] |}.
    by rewrite Hdata.
Qed.

Lemma X18_new_user_columns_witness :
  ∃ r d',
    create schema "User" a_user 10 empty_db = Some (r, d')
    ∧ col r "accessToken" = VNull ∧ col r "refreshToken" = VNull
    ∧ col r "createdAt" = VDateTime 10.
Proof.
  assert (E : is_Some (create schema "User" a_user 10 empty_db))
    by (apply is_Some_compute; vm_compute; reflexivity).
  destruct E as [[r d'] E]. exists r, d'. split; [exact E|].
  destruct (X18_new_user_columns empty_db a_user 10 r d' E) as (Hnull & Htime & _).
  split; [apply Hnull; [compute_done | reflexivity]|].
  split; [apply Hnull; [compute_done | reflexivity]|].
  apply Htime; [compute_done | reflexivity].
Defined.

(** X19.  Stored values have the declared types: in data that satisfies
    the schema, the availability flag of a book is true or false (never
    null), its borrow counter and year are integers and its ISBN is null
    or a string; the return time of a transaction is null or a time, so a
    transaction is either open or returned at a definite time. *)
Theorem X19_stored_values_are_typed d :
  db_ok schema d →
  (∀ b, b ∈ table d "Book" →
     (∃ v, col b "isAvailable" = VBoolean v)
     ∧ (∃ n, col b "borrowedCount" = VInt n)
     ∧ (∃ y, col b "publishedYear" = VInt y)
     ∧ (col b "isbn" = VNull ∨ ∃ s, col b "isbn" = VString s))
  ∧ (∀ t, t ∈ table d "Transactions" →
       (∃ z, col t "borrowedAt" = VDateTime z)
       ∧ (is_open t ∨ ∃ z, col t "returnedAt" = VDateTime z)).
Proof.
  intros Hok.
  assert (Hty : ∀ m f ty r, HasType m f ty ∈ constraints schema → r ∈ table d m →
                  has_type ty (col r f) = true).
  { intros m f ty r Hc Hr. apply (typed_rows d m f ty r); [by apply schema_holds | exact Hr]. }
  assert (Hnn : ∀ m f r, NotNull m f ∈ constraints schema → r ∈ table d m →
                  col r f ≠ VNull).
  { intros m f r Hc Hr. apply (not_null_rows d m f r); [by apply schema_holds | exact Hr]. }
  split.
  - intros b Hb. split; [|split; [|split]].
    + pose proof (Hty "Book" "isAvailable" CBoolean b ltac:(compute_done) Hb) as H1.
      pose proof (Hnn "Book" "isAvailable" b ltac:(compute_done) Hb) as H2.
      destruct (col b "isAvailable") as [| | |v| |]; try discriminate H1; [done|].
      by exists v.
    + pose proof (Hty "Book" "borrowedCount" CInt b ltac:(compute_done) Hb) as H1.
      pose proof (Hnn "Book" "borrowedCount" b ltac:(compute_done) Hb) as H2.
      destruct (col b "borrowedCount") as [|n| | | |]; try discriminate H1; [done|].
      by exists n.
    + pose proof (Hty "Book" "publishedYear" CInt b ltac:(compute_done) Hb) as H1.
      pose proof (Hnn "Book" "publishedYear" b ltac:(compute_done) Hb) as H2.
      destruct (col b "publishedYear") as [|n| | | |]; try discriminate H1; [done|].
      by exists n.
    + pose proof (Hty "Book" "isbn" CString b ltac:(compute_done) Hb) as H1.
      destruct (col b "isbn") as [| |s| | |]; try discriminate H1; [by left|].
      right. by exists s.
  - intros t Ht. split.
    + pose proof (Hty "Transactions" "borrowedAt" CDateTime t ltac:(compute_done) Ht) as H1.
      pose proof (Hnn "Transactions" "borrowedAt" t ltac:(compute_done) Ht) as H2.
      destruct (col t "borrowedAt") as [| | | |z|]; try discriminate H1; [done|].
      by exists z.
    + pose proof (Hty "Transactions" "returnedAt" CDateTime t ltac:(compute_done) Ht) as H1.
      unfold is_open.
      destruct (col t "returnedAt") as [| | | |z|]; try discriminate H1; [by left|].
      right. by exists z.
Qed.

Lemma X19_stored_values_are_typed_witness :
  ∃ d,
    double_borrow = Some d
    ∧ (∀ b, b ∈ table d "Book" →
         (∃ v, col b "isAvailable" = VBoolean v)
         ∧ (∃ n, col b "borrowedCount" = VInt n)
         ∧ (∃ y, col b "publishedYear" = VInt y)
         ∧ (col b "isbn" = VNull ∨ ∃ s, col b "isbn" = VString s))
    ∧ (∀ t, t ∈ table d "Transactions" →
         (∃ z, col t "borrowedAt" = VDateTime z)
         ∧ (is_open t ∨ ∃ z, col t "returnedAt" = VDateTime z)).
Proof.
  assert (E : is_Some double_borrow) by (apply is_Some_compute; vm_compute; reflexivity).
  destruct E as [d E]. exists d. split; [exact E|].
  assert (Hok : from_option (fun d => bool_decide (db_ok schema d)) false double_borrow = true)
    by (vm_compute; reflexivity).
  rewrite E in Hok. simpl in Hok. apply bool_decide_eq_true in Hok.
  exact (X19_stored_values_are_typed d Hok).
Defined.

(** X20.  The indexes are not constraints.  The unique columns are id and
    isbn for Book and id, email and username for User; the index on
    (title, author) keeps nothing apart: two books with the same title and
    the same author are stored one after the other and the result
    satisfies the schema. *)
Theorem X20_search_index_is_not_a_constraint :
  unique_columns schema "Book" = ["id"; "isbn"]%string
  ∧ unique_columns schema "User" = ["id"; "email"; "username"]%string
  ∧ ∃ d b1 b2,
      two_plain_books = Some d ∧ db_ok schema d ∧ table d "Book" = [b1; b2]
      ∧ col b1 "title" = col b2 "title" ∧ col b1 "author" = col b2 "author".
Proof.
  split; [reflexivity|]. split; [reflexivity|].
  assert (E : is_Some two_plain_books) by (apply is_Some_compute; vm_compute; reflexivity).
  destruct E as [d E].
  assert (Hfacts : from_option (fun d =>
            bool_decide (db_ok schema d
                         ∧ (fun b => (col b "title", col b "author")) <$> table d "Book"
                           = [(VString "The Great Gatsby", VString "F. Scott Fitzgerald");
                              (VString "The Great Gatsby", VString "F. Scott Fitzgerald")]))
            false two_plain_books = true) by (vm_compute; reflexivity).
  rewrite E in Hfacts. simpl in Hfacts.
  apply bool_decide_eq_true in Hfacts as (Hok & Hrows).
  destruct (table d "Book") as [|b1 [|b2 [|? ?]]] eqn:Ht; try discriminate Hrows.
  injection Hrows as Ht1 Ha1 Ht2 Ha2.
  exists d, b1, b2. split; [exact E|]. split; [exact Hok|]. split; [exact Ht|].
  split; congruence.
Qed.

End SchemaFurther.
